(** * The banner renderer of scripts/generate-banner-v2.py

    A shallow embedding of the two functions of the script, [draw_icon] and
    [generate_banner], followed by the properties that the written
    specification states of them.

    - Python numbers.  The script computes with [int] (unbounded, here [Z])
      and with [float] (IEEE 754 binary64).  The arithmetic of the two
      functions is written once, over an interface [PyNum], and read at two
      instances: [b64], binary64 with round-to-nearest-even as the Standard
      Library's [SpecFloat] specifies it, which is what the interpreter
      computes, and [Q], exact rationals, the same formulas without
      rounding.  Statements about the gradient loop (1200 columns), about
      the icons the script places and about the alpha of an icon for an
      opacity between 0 and 1 are made in binary64; the other statements
      about [draw_icon] at arbitrary arguments are made in exact
      arithmetic, and say so.
    - Pillow.  Images are mutable objects, and an [ImageDraw] handle keeps
      the image it was created for.  The embedding has a store of image
      objects; the value of an object is the term of the Pillow operations
      that produced its pixels.  What Pillow computes from such a term
      (compositing, blurring, resampling, glyph rendering, JPEG encoding)
      is not modelled; its size and mode are.  Each Pillow call is a
      function of its arguments: that Pillow is deterministic is taken for
      granted, not proved.
    - Effects.  [generate_banner] runs in a state-and-exception monad over
      the files it reads, the store, the standard output, the files it
      writes and the state of the [random] module.  The world is the
      plain one: [print] succeeds, [save] fails only when [web/static]
      cannot be written to, memory is not exhausted.  The two lines
      under [__main__] ([os.chdir] to the checkout, then the call) are
      left out.
    - The first renderer.  scripts/generate-banner.py, the earlier script
      with its one function, is embedded apart, in the module [V1]. *)

From Stdlib Require Import ZArith QArith Qabs Qround Lqa Lia.
From Stdlib Require Import List String Ascii Bool SpecFloat.
From stdpp Require Import base list.
Import ListNotations.

Local Open Scope string_scope.
Local Open Scope list_scope.
Local Open Scope Z_scope.

(* ================================================================== *)
(** * The script *)

(** ** Exceptions *)

Inductive Exn : Type :=
| FileNotFoundError (path : string)
| OSError (msg : string)
| ZeroDivisionError
| OverflowError (msg : string)
| ValueError (msg : string).

Definition exn_str (e : Exn) : string :=
  match e with
  | FileNotFoundError path =>
      ("[Errno 2] No such file or directory: '" ++ path ++ "'")%string
  | OSError msg => msg
  | ZeroDivisionError => "division by zero"
  | OverflowError msg => msg
  | ValueError msg => msg
  end.

Inductive Outcome (A : Type) : Type :=
| Return (a : A)
| Raise (e : Exn).

Arguments Return {A} a.
Arguments Raise {A} e.

#[export] Instance Outcome_ret : MRet Outcome := @Return.
#[export] Instance Outcome_bind : MBind Outcome :=
  fun A B k o => match o with
                 | Return a => k a
                 | Raise e => Raise e
                 end.

(** ** Python numbers *)

(** What the two functions need of a number type.  [of_int] is the
    promotion of an [int] operand in mixed arithmetic, [of_lit] a decimal
    literal such as [0.5], [ndiv] true division [/] (the script divides by
    64 and by 1200 only), [to_int] the builtin [int()]: truncation toward
    zero, or an exception. *)
Class PyNum (N : Type) := {
  of_int : Z -> N;
  of_lit : Q -> N;
  nadd : N -> N -> N;
  nsub : N -> N -> N;
  nmul : N -> N -> N;
  ndiv : N -> N -> N;
  nabs : N -> N;
  nlt : N -> N -> bool;
  to_int : N -> Outcome Z
}.

Declare Scope py_scope.
Delimit Scope py_scope with py.
Infix "+" := nadd : py_scope.
Infix "-" := nsub : py_scope.
Infix "*" := nmul : py_scope.
Infix "/" := ndiv : py_scope.
Infix "<?" := nlt : py_scope.

(** Exact rationals.  [int()] drops the fractional part: the quotient of
    numerator by denominator, rounded toward zero. *)
Definition Q_trunc (q : Q) : Z := Z.quot (Qnum q) (Zpos (Qden q)).

#[export] Instance Q_PyNum : PyNum Q := {
  of_int := inject_Z;
  of_lit q := q;
  nadd := Qplus;
  nsub := Qminus;
  nmul := Qmult;
  ndiv := Qdiv;
  nabs := Qabs;
  nlt a b := negb (Qle_bool b a);
  to_int q := Return (Q_trunc q)
}.

(** Binary64: 53 bits of precision, exponent bound 1024. *)
Module B64.

Definition prec : Z := 53.
Definition emax : Z := 1024.

Definition t : Type := spec_float.

(** The nearest binary64 to an integer (exact below [2^53]). *)
Definition of_Z (z : Z) : t := binary_normalize prec emax z 0 false.

Definition add : t -> t -> t := SFadd prec emax.
Definition sub : t -> t -> t := SFsub prec emax.
Definition mul : t -> t -> t := SFmul prec emax.
Definition div : t -> t -> t := SFdiv prec emax.
Definition abs : t -> t := SFabs.
Definition ltb : t -> t -> bool := SFltb.

(** The nearest binary64 to a decimal literal: the literal is the
    rational [n/d] with [n] and [d] below [2^53], and the division
    rounds once. *)
Definition of_Q (q : Q) : t := div (of_Z (Qnum q)) (of_Z (Zpos (Qden q))).

Definition is_finite (f : t) : bool :=
  match f with
  | S754_zero _ | S754_finite _ _ _ => true
  | S754_infinity _ | S754_nan => false
  end.

(** The integer part of a finite [f], that is of [m * 2^e], with the
    sign. *)
Definition trunc (f : t) : Z :=
  match f with
  | S754_finite s m e =>
      let a := match e with
               | Zneg p => Z.shiftr (Zpos m) (Zpos p)
               | _ => Z.shiftl (Zpos m) e
               end in
      if s then - a else a
  | _ => 0
  end.

(** [int(f)]. *)
Definition to_int (f : t) : Outcome Z :=
  match f with
  | S754_infinity _ => Raise (OverflowError "cannot convert float infinity to integer")
  | S754_nan => Raise (ValueError "cannot convert float NaN to integer")
  | _ => Return (trunc f)
  end.

(** The rational a finite binary64 stands for. *)
Definition to_Q (f : t) : Q :=
  match f with
  | S754_finite s m e =>
      let a := match e with
               | Zneg p => Zpos m # (2 ^ p)
               | _ => inject_Z (Z.shiftl (Zpos m) e)
               end in
      if s then Qopp a else a
  | _ => 0%Q
  end.

End B64.

Abbreviation b64 := B64.t.

#[export] Instance b64_PyNum : PyNum b64 := {
  of_int := B64.of_Z;
  of_lit := B64.of_Q;
  nadd := B64.add;
  nsub := B64.sub;
  nmul := B64.mul;
  ndiv := B64.div;
  nabs := B64.abs;
  nlt := B64.ltb;
  to_int := B64.to_int
}.

(** [range(start, stop, step)] for a positive step, and [range(stop)]. *)
Definition range3 (start stop step : Z) : list Z :=
  map (fun k => start + step * Z.of_nat k)
      (seq 0 (Z.to_nat ((stop - start + step - 1) / step))).

Definition range (stop : Z) : list Z := range3 0 stop 1.

(** ** Draw calls *)

(** A colour is a tuple of channel values, [(r, g, b)] or [(r, g, b, a)]. *)
Definition Color : Type := list Z.

Inductive Font : Type :=
| truetype_font (file : string) (content : string) (size : Z)
| default_font.

(** The three [ImageDraw] methods the script calls, with the arguments it
    passes.  [line] has [width=0] and no [joint] by default. *)
Inductive DrawCall (N : Type) : Type :=
| rectangle (xy : (N * N) * (N * N)) (outline : Color) (width : Z)
| line (xy : list (N * N)) (fill : Color) (width : Z) (joint : option string)
| text (xy : N * N) (s : string) (font : Font) (fill : Color).

Arguments rectangle {N} xy outline width.
Arguments line {N} xy fill width joint.
Arguments text {N} xy s font fill.

(** ** [draw_icon] *)

Section DrawIcon.

Context {N : Type} `{PyNum N}.

(** What a function has done with its [draw] argument when it ends: how
    it ended, and the calls it made before, in order. *)
Definition Drawing (A : Type) : Type := Outcome A * list (DrawCall N).

#[export] Instance Drawing_ret : MRet Drawing := fun A a => (Return a, []).

#[export] Instance Drawing_bind : MBind Drawing :=
  fun A B k m =>
    match m with
    | (Return a, calls) => let '(o, calls') := k a in (o, calls ++ calls')
    | (Raise e, calls) => (Raise e, calls)
    end.

(** An expression that may raise, and a call on [draw].  A call is
    recorded with its arguments; what Pillow may refuse of them (corners
    out of order, for one) is not told here. *)
Definition evaluate {A} (o : Outcome A) : Drawing A := (o, []).

Definition emit (c : DrawCall N) : Drawing unit := (Return tt, [c]).

Fixpoint draw_each {A} (l : list A) (body : A -> Drawing unit) : Drawing unit :=
  match l with
  | [] => mret tt
  | a :: l' => body a ;; draw_each l' body
  end.

(** [draw.rectangle(xy, outline=.., width=..)] and
    [draw.line(xy, fill=.., width=.., joint=..)]: the width is evaluated,
    then the call is made. *)
Definition draw_rectangle (xy : (N * N) * (N * N)) (outline : Color)
    (width : Outcome Z) : Drawing unit :=
  w ← evaluate width; emit (rectangle xy outline w).

Definition draw_line (xy : list (N * N)) (fill : Color) (width : Outcome Z)
    (joint : option string) : Drawing unit :=
  w ← evaluate width; emit (line xy fill w joint).

(** [max(1, int(2*s))] and [max(1, int(s))]. *)
Definition stroke_width (s : N) : Outcome Z :=
  k ← to_int (of_int 2 * s)%py; mret (Z.max 1 k).

Definition band_width (s : N) : Outcome Z :=
  k ← to_int s; mret (Z.max 1 k).

(** The points of the wave: for [i] in [range(16, 49, 4)],
    [wave_y = 32 + 8 * (1 if (i // 8) % 2 else -1)]. *)
Definition wave_points (x y s : N) : list (N * N) :=
  map (fun i =>
         let wave_y := 32 + 8 * (if negb ((i / 8) mod 2 =? 0) then 1 else -1) in
         ((x + of_int i * s)%py, (y + of_int wave_y * s)%py))
      (range3 16 49 4).

(** Lines 11-63.  The argument [draw] is what the result is about. *)
Definition draw_icon (x y size : N) (icon_type : string) (color : Color)
    (opacity : N) : Drawing unit :=
  alpha ← evaluate (to_int (opacity * of_int 255)%py);
  let color_with_alpha := color ++ [alpha] in
  let s := (size / of_int 64)%py in
  if String.eqb icon_type "chip" then
    draw_rectangle ((x + of_int 16 * s, y + of_int 16 * s),
                    (x + of_int 48 * s, y + of_int 48 * s))%py
                   color_with_alpha (stroke_width s);;
    draw_rectangle ((x + of_int 24 * s, y + of_int 24 * s),
                    (x + of_int 40 * s, y + of_int 40 * s))%py
                   color_with_alpha (stroke_width s);;
    draw_each [20; 28; 36; 44] (fun i =>
      draw_line [(x + of_int i * s, y + of_int 12 * s);
                 (x + of_int i * s, y + of_int 16 * s)]%py
                color_with_alpha (stroke_width s) None;;
      draw_line [(x + of_int i * s, y + of_int 48 * s);
                 (x + of_int i * s, y + of_int 52 * s)]%py
                color_with_alpha (stroke_width s) None)
  else if String.eqb icon_type "terminal" then
    draw_rectangle ((x + of_int 8 * s, y + of_int 12 * s),
                    (x + of_int 56 * s, y + of_int 52 * s))%py
                   color_with_alpha (stroke_width s);;
    let points := [(x + of_int 18 * s, y + of_int 26 * s);
                   (x + of_int 24 * s, y + of_int 30 * s);
                   (x + of_int 18 * s, y + of_int 34 * s)]%py in
    draw_line points color_with_alpha (stroke_width s) (Some "curve");;
    draw_line [(x + of_int 32 * s, y + of_int 34 * s);
               (x + of_int 40 * s, y + of_int 34 * s)]%py
              color_with_alpha (stroke_width s) None
  else if String.eqb icon_type "wave" then
    draw_rectangle ((x + of_int 8 * s, y + of_int 12 * s),
                    (x + of_int 56 * s, y + of_int 52 * s))%py
                   color_with_alpha (stroke_width s);;
    let points := wave_points x y s in
    if 1 <? Z.of_nat (length points)
    then draw_line points color_with_alpha (stroke_width s) (Some "curve")
    else mret tt
  else if String.eqb icon_type "resistor" then
    draw_rectangle ((x + of_int 16 * s, y + of_int 28 * s),
                    (x + of_int 48 * s, y + of_int 36 * s))%py
                   color_with_alpha (stroke_width s);;
    draw_each [20; 26; 32; 38] (fun offset =>
      draw_line [(x + of_int offset * s, y + of_int 28 * s);
                 (x + of_int offset * s, y + of_int 36 * s)]%py
                color_with_alpha (band_width s) None);;
    draw_line [(x + of_int 8 * s, y + of_int 32 * s);
               (x + of_int 16 * s, y + of_int 32 * s)]%py
              color_with_alpha (stroke_width s) None;;
    draw_line [(x + of_int 48 * s, y + of_int 32 * s);
               (x + of_int 56 * s, y + of_int 32 * s)]%py
              color_with_alpha (stroke_width s) None
  else mret tt.

End DrawIcon.

Arguments Drawing N A : clear implicits.

(** The calls [draw_icon] makes. *)
Definition icon_calls {N} `{PyNum N} (x y size : N) (icon_type : string)
    (color : Color) (opacity : N) : list (DrawCall N) :=
  snd (draw_icon x y size icon_type color opacity).

(** ** The gradient of [generate_banner] *)

Section Gradient.

Context {N : Type} `{PyNum N}.

(** [alpha = int(25 + 10 * abs(ratio - 0.5) * 2)], for [ratio = i / width]. *)
Definition gradient_alpha (width i : Z) : Outcome Z :=
  let ratio := (of_int i / of_int width)%py in
  to_int (of_int 25 + of_int 10 * nabs (ratio - of_lit 0.5) * of_int 2)%py.

(** The body of the loop [for i in range(width)]: the fill colour
    [(r, g, b, alpha)] of column [i]. *)
Definition gradient_fill (width i : Z) : Outcome Color :=
  let ratio := (of_int i / of_int width)%py in
  '(r, g, b) ←
    (if (ratio <? of_lit 0.5)%py then
       let t := (ratio * of_int 2)%py in
       r ← to_int (of_int 102 + of_int (14 - 102) * t)%py;
       g ← to_int (of_int 126 + of_int (165 - 126) * t)%py;
       b ← to_int (of_int 234 + of_int (233 - 234) * t)%py;
       mret (r, g, b)
     else
       let t := ((ratio - of_lit 0.5) * of_int 2)%py in
       r ← to_int (of_int 14 + of_int (244 - 14) * t)%py;
       g ← to_int (of_int 165 + of_int (114 - 165) * t)%py;
       b ← to_int (of_int 233 + of_int (182 - 233) * t)%py;
       mret (r, g, b));
  alpha ← gradient_alpha width i;
  mret [r; g; b; alpha].

End Gradient.

Definition width : Z := 1200.
Definition height : Z := 630.

(** ** Pillow images *)

Inductive Mode : Type := RGB | RGBA | other_mode (name : string).

Definition Mode_eqb (a b : Mode) : bool :=
  match a, b with
  | RGB, RGB | RGBA, RGBA => true
  | other_mode n, other_mode m => String.eqb n m
  | _, _ => false
  end.

(** The content of an image file that Pillow can decode.  (Pillow sizes
    are C ints, far below [2^53]: their conversion to binary64 is
    exact.) *)
Record Picture : Type := {
  pic_mode : Mode;
  pic_width : Z;
  pic_height : Z;
  pic_data : string
}.

(** The pixels of an image object, as the term of the Pillow operations
    that produced them.  Pillow is deterministic: equal terms are equal
    pixels. *)
Inductive Image : Type :=
| New (mode : Mode) (size : Z * Z) (color : Color)
| Opened (path : string) (p : Picture)
| Convert (mode : Mode) (im : Image)
| Resize (size : Z * Z) (resample : string) (im : Image)
| GaussianBlur (radius : Z) (im : Image)
| AlphaComposite (im1 im2 : Image)
| Drawn (im : Image) (call : DrawCall b64)
| Pasted (im src : Image) (box : Z * Z) (mask : Image).

(** [im.size] and [im.mode].  Drawing and pasting change pixels in place
    and leave both as they are; [paste] clips what falls outside. *)
Fixpoint image_size (im : Image) : Z * Z :=
  match im with
  | New _ size _ => size
  | Opened _ p => (pic_width p, pic_height p)
  | Convert _ im => image_size im
  | Resize size _ _ => size
  | GaussianBlur _ im => image_size im
  | AlphaComposite im1 _ => image_size im1
  | Drawn im _ => image_size im
  | Pasted im _ _ _ => image_size im
  end.

Fixpoint image_mode (im : Image) : Mode :=
  match im with
  | New mode _ _ => mode
  | Opened _ p => pic_mode p
  | Convert mode _ => mode
  | Resize _ _ im => image_mode im
  | GaussianBlur _ im => image_mode im
  | AlphaComposite im1 _ => image_mode im1
  | Drawn im _ => image_mode im
  | Pasted im _ _ _ => image_mode im
  end.

(** ** The world of one run *)

Inductive LogoFile : Type :=
| logo_missing
| logo_undecodable
| logo_decodes (p : Picture).

(** The files the script reads: the logo, the two DejaVu fonts ([None]
    when [ImageFont.truetype] cannot load the file), and whether
    [web/static] can be written to.  A logo that [Image.open] takes and
    [convert] refuses ends in the same handler as one that [open]
    refuses, and is not told apart from it. *)
Record FileSystem : Type := {
  logo_png : LogoFile;
  DejaVuSans_Bold_ttf : option string;
  DejaVuSans_ttf : option string;
  static_writable : bool
}.

Record SavedFile : Type := {
  saved_image : Image;
  saved_format : string;
  saved_quality : Z;
  saved_optimize : bool
}.

(** Image objects are referred to by their index in the store. *)
Definition ref : Type := nat.

Record World : Type := {
  files : FileSystem;
  heap : list Image;
  stdout : list string;
  written : list (string * SavedFile);
  random_state : Z
}.

Definition set_heap (h : list Image) (w : World) : World :=
  {| files := files w; heap := h; stdout := stdout w;
     written := written w; random_state := random_state w |}.

Definition set_stdout (o : list string) (w : World) : World :=
  {| files := files w; heap := heap w; stdout := o;
     written := written w; random_state := random_state w |}.

Definition set_written (f : list (string * SavedFile)) (w : World) : World :=
  {| files := files w; heap := heap w; stdout := stdout w;
     written := f; random_state := random_state w |}.

Definition set_random_state (g : Z) (w : World) : World :=
  {| files := files w; heap := heap w; stdout := stdout w;
     written := written w; random_state := g |}.

(** The world when [generate_banner] is entered: nothing allocated,
    printed or written; [import random] has seeded the generator. *)
Definition initial_world (fs : FileSystem) (seed : Z) : World :=
  {| files := fs; heap := []; stdout := []; written := []; random_state := seed |}.

(** ** The monad of [generate_banner] *)

Definition Py (A : Type) : Type := World -> Outcome A * World.

Definition ret {A} (a : A) : Py A := fun w => (Return a, w).

Definition raise {A} (e : Exn) : Py A := fun w => (Raise e, w).

Definition bind {A B} (m : Py A) (k : A -> Py B) : Py B :=
  fun w => match m w with
           | (Return a, w') => k a w'
           | (Raise e, w') => (Raise e, w')
           end.

(** [try: body / except: handler]: what [body] did before it raised
    stays done. *)
Definition try_except {A} (body : Py A) (handler : Exn -> Py A) : Py A :=
  fun w => match body w with
           | (Return a, w') => (Return a, w')
           | (Raise e, w') => handler e w'
           end.

#[export] Instance Py_ret : MRet Py := @ret.
#[export] Instance Py_bind : MBind Py := fun A B k m => bind m k.

Fixpoint for_each {A} (l : list A) (body : A -> Py unit) : Py unit :=
  match l with
  | [] => ret tt
  | a :: l' => body a ;; for_each l' body
  end.

(** An expression that may raise, inside the run. *)
Definition lift {A} (o : Outcome A) : Py A := fun w => (o, w).

Definition print (s : string) : Py unit :=
  fun w => (Return tt, set_stdout (stdout w ++ [s]) w).

(** ** The [random] module *)

(** Line 9 imports it.  The module keeps one generator for the process:
    a draw reads its state and moves it on, [random.seed] replaces it.
    The step below stands for that of the Mersenne Twister; the script
    calls neither function, and no statement depends on the step. *)
Definition random_step (g : Z) : Z :=
  (6364136223846793005 * g + 1442695040888963407) mod 2 ^ 64.

Definition random_randint (a b : Z) : Py Z :=
  fun w =>
    if b <? a then raise (ValueError "empty range for randrange()") w
    else (Return (a + random_state w mod (b - a + 1)),
          set_random_state (random_step (random_state w)) w).

Definition random_seed (n : Z) : Py unit :=
  fun w => (Return tt, set_random_state n w).

(** ** The Pillow calls of the script *)

#[export] Instance Image_inhabited : Inhabited Image := populate (New RGB (0, 0) []).

Definition alloc (v : Image) : Py ref :=
  fun w => (Return (length (heap w)), set_heap (heap w ++ [v]) w).

Definition deref (r : ref) : Py Image :=
  fun w => (Return (heap w !!! r), w).

Definition assign (r : ref) (v : Image) : Py unit :=
  fun w => (Return tt, set_heap (<[r := v]> (heap w)) w).

Definition Image_new (mode : Mode) (size : Z * Z) (color : Color) : Py ref :=
  alloc (New mode size color).

Definition logo_path : string := "docs/brand/Logo.png".

(** [Image.open(path)]: only the logo is ever opened. *)
Definition Image_open (path : string) : Py ref :=
  fun w =>
    if String.eqb path logo_path then
      match logo_png (files w) with
      | logo_missing => raise (FileNotFoundError path) w
      | logo_undecodable =>
          raise (OSError ("cannot identify image file '" ++ path ++ "'")%string) w
      | logo_decodes p => alloc (Opened path p) w
      end
    else raise (FileNotFoundError path) w.

Definition Image_convert (im : ref) (mode : Mode) : Py ref :=
  v ← deref im; alloc (Convert mode v).

(** [im.resize(size, resample)]; Pillow refuses an empty target.  A
    target too large for the memory at hand is outside the model. *)
Definition Image_resize (im : ref) (size : Z * Z) (resample : string) : Py ref :=
  v ← deref im;
  if (fst size <? 1) || (snd size <? 1)
  then raise (ValueError "height and width must be > 0")
  else alloc (Resize size resample v).

Definition Image_copy (im : ref) : Py ref :=
  v ← deref im; alloc v.

Definition Image_filter_GaussianBlur (im : ref) (radius : Z) : Py ref :=
  v ← deref im; alloc (GaussianBlur radius v).

(** [Image.alpha_composite(im1, im2)] returns a new image; both arguments
    must be RGBA and of one size. *)
Definition Image_alpha_composite (im1 im2 : ref) : Py ref :=
  v1 ← deref im1;
  v2 ← deref im2;
  if Mode_eqb (image_mode v1) RGBA && Mode_eqb (image_mode v2) RGBA
     && (fst (image_size v1) =? fst (image_size v2))
     && (snd (image_size v1) =? snd (image_size v2))
  then alloc (AlphaComposite v1 v2)
  else raise (ValueError "images do not match").

(** [im.paste(src, box, mask)] changes [im] in place. *)
Definition Image_paste (im src : ref) (box : Z * Z) (mask : ref) : Py unit :=
  v ← deref im;
  s ← deref src;
  m ← deref mask;
  assign im (Pasted v s box m).

(** [ImageDraw.Draw(im, 'RGBA')]: a handle on the object [im]. *)
Definition Draw : Type := ref.

Definition ImageDraw_Draw (im : ref) : Py Draw := ret im.

Definition draw_call (draw : Draw) (c : DrawCall b64) : Py unit :=
  v ← deref draw; assign draw (Drawn v c).

Definition bold_path : string := "/usr/share/fonts/truetype/dejavu/DejaVuSans-Bold.ttf".
Definition sans_path : string := "/usr/share/fonts/truetype/dejavu/DejaVuSans.ttf".

Definition ImageFont_truetype (path : string) (size : Z) : Py Font :=
  fun w =>
    let file :=
      if String.eqb path bold_path then DejaVuSans_Bold_ttf (files w)
      else if String.eqb path sans_path then DejaVuSans_ttf (files w)
      else None in
    match file with
    | Some content => ret (truetype_font path content size) w
    | None => raise (OSError "cannot open resource") w
    end.

Definition ImageFont_load_default : Py Font := ret default_font.

Definition write_file (path : string) (f : SavedFile) : Py unit :=
  fun w =>
    if static_writable (files w)
    then (Return tt, set_written (written w ++ [(path, f)]) w)
    else raise (FileNotFoundError path) w.

Definition Image_save (im : ref) (path format : string) (quality : Z)
    (optimize : bool) : Py unit :=
  v ← deref im;
  write_file path {| saved_image := v; saved_format := format;
                     saved_quality := quality; saved_optimize := optimize |}.

(** ** [generate_banner] *)

(** [a / b] on two ints, and [int(f)] on a float. *)
Definition py_truediv (a b : Z) : Py b64 :=
  if b =? 0 then raise ZeroDivisionError
  else
    let q := (of_int a / of_int b)%py in
    if B64.is_finite q then ret q
    else raise (OverflowError "integer division result too large for a float").

Definition py_int (f : b64) : Py Z := lift (to_int f).

(** Line 100; the script binds the list and does not use it. *)
Definition icon_types : list string := ["chip"; "terminal"; "wave"; "resistor"].

Definition icon_positions : list (Z * Z * Z * string * Color * Q) :=
  [ (80, 80, 48, "chip", [102; 126; 234], 0.08%Q);
    (180, 450, 32, "terminal", [14; 165; 233], 0.12%Q);
    (950, 120, 56, "wave", [244; 114; 182], 0.10%Q);
    (1050, 500, 40, "resistor", [102; 126; 234], 0.09%Q);
    (280, 150, 24, "chip", [14; 165; 233], 0.15%Q);
    (920, 380, 36, "terminal", [244; 114; 182], 0.11%Q);
    (120, 520, 28, "wave", [102; 126; 234], 0.13%Q);
    (1100, 250, 32, "chip", [14; 165; 233], 0.10%Q) ].

(** A call [draw_icon(draw, x, y, size, icon_type, color, opacity)] in the
    run: the calls it makes reach the object behind [draw], and the run
    goes on as the call ended. *)
Definition call_draw_icon (draw : Draw) (x y size : b64) (icon_type : string)
    (color : Color) (opacity : b64) : Py unit :=
  let '(outcome, calls) := draw_icon x y size icon_type color opacity in
  for_each calls (draw_call draw);;
  lift outcome.

(** Lines 78-95: one line per column on the gradient layer. *)
Definition draw_gradient (grad_draw : Draw) : Py unit :=
  for_each (range width) (fun i =>
    fill ← lift (gradient_fill width i);
    draw_call grad_draw
      (line [(of_int i, of_int 0); (of_int i, of_int height)] fill 0 None)).

(** Lines 66-114: the background, the gradient composited over it, and
    the icons.  The handle [draw] is made for the first image; the
    [img] that leaves the block is the composite, a new object. *)
Definition paint_background : Py (ref * Draw) :=
  img ← Image_new RGBA (width, height) [15; 23; 42; 255];
  draw ← ImageDraw_Draw img;
  gradient ← Image_new RGBA (width, height) [0; 0; 0; 0];
  grad_draw ← ImageDraw_Draw gradient;
  draw_gradient grad_draw;;
  img ← Image_alpha_composite img gradient;
  for_each icon_positions (fun '(x, y, size, icon, color, opacity) =>
    call_draw_icon draw (of_int x) (of_int y) (of_int size) icon color
                   (of_lit opacity));;
  mret (img, draw).

(** Lines 117-146: the logo with its glow, or the fallback mark. *)
Definition place_logo (img : ref) (draw : Draw) : Py unit :=
  try_except
    (logo ← Image_open logo_path;
     logo ← Image_convert logo RGBA;
     let logo_height := 340 in
     v ← deref logo;
     aspect ← py_truediv (fst (image_size v)) (snd (image_size v));
     logo_width ← py_int (of_int logo_height * aspect)%py;
     logo ← Image_resize logo (logo_width, logo_height) "LANCZOS";
     let logo_x := 40 in
     let logo_y := (height - logo_height) / 2 in
     glow ← Image_copy logo;
     glow ← Image_filter_GaussianBlur glow 30;
     Image_paste img glow (logo_x, logo_y) glow;;
     Image_paste img glow (logo_x, logo_y) glow;;
     Image_paste img glow (logo_x, logo_y) glow;;
     Image_paste img logo (logo_x, logo_y) logo)
    (fun e =>
       print ("Warning: Could not load logo: " ++ exn_str e)%string;;
       try_except
         (font_logo ← ImageFont_truetype bold_path 140;
          draw_call draw
            (text (of_int 100, of_int 250) "JW" font_logo [14; 165; 233; 255]))
         (fun _ => ret tt)).

(** Lines 152-160: the three text fonts, or the built-in one for all. *)
Definition load_fonts : Py (Font * Font * Font) :=
  try_except
    (font_name ← ImageFont_truetype bold_path 60;
     font_title ← ImageFont_truetype sans_path 30;
     font_subtitle ← ImageFont_truetype sans_path 21;
     ret (font_name, font_title, font_subtitle))
    (fun _ =>
       font_name ← ImageFont_load_default;
       font_title ← ImageFont_load_default;
       font_subtitle ← ImageFont_load_default;
       ret (font_name, font_title, font_subtitle)).

(** Lines 148-172: the fonts, a new handle on [img], and the three lines
    of text. *)
Definition draw_texts (img : ref) : Py unit :=
  let text_x := 480 in
  '(font_name, font_title, font_subtitle) ← load_fonts;
  draw ← ImageDraw_Draw img;
  draw_call draw (text (of_int text_x, of_int 230) "Josh Wentworth"
                       font_name [255; 255; 255; 255]);;
  draw_call draw (text (of_int text_x, of_int 315) "Multidisciplinary Engineer"
                       font_title [148; 163; 184; 255]);;
  draw_call draw (text (of_int text_x, of_int 375)
                       "Software × Hardware × Fabrication"
                       font_subtitle [14; 165; 233; 255]).

Definition output_path : string := "web/static/banner.jpg".

(** Lines 174-183: flatten onto the background colour, save, report. *)
Definition save_banner (img : ref) : Py unit :=
  img_rgb ← Image_new RGB (width, height) [15; 23; 42];
  Image_paste img_rgb img (0, 0) img;;
  Image_save img_rgb output_path "JPEG" 95 true;;
  print ("✓ Generated banner: " ++ output_path)%string;;
  print "  Size: 1200x630";;
  print "  Features: Logo, gradient overlay, floating tech icons".

(** Lines 65-183. *)
Definition generate_banner : Py unit :=
  '(img, draw) ← paint_background;
  place_logo img draw;;
  draw_texts img;;
  save_banner img.

(* ================================================================== *)
(** * The first renderer, scripts/generate-banner.py

    One function, [generate_banner]: three translucent bands instead of
    the per-column gradient, the mark 'JW' always as text, no logo file,
    no icons.  Colours are passed as strings ('#0f172a') or as tuples,
    coordinates are [int]s, and [rectangle] and [ellipse] are filled.
    The module has its own images and store. *)

Module V1.

Inductive ColorArg : Type :=
| color_string (s : string)
| color_tuple (c : Color).

(** The three [ImageDraw] methods this script calls, with the arguments
    it passes. *)
Inductive DrawCall : Type :=
| rectangle (xy : (Z * Z) * (Z * Z)) (fill : ColorArg)
| ellipse (xy : (Z * Z) * (Z * Z)) (fill : ColorArg)
| text (xy : Z * Z) (s : string) (font : Font) (fill : ColorArg).

Inductive Image : Type :=
| New (mode : Mode) (size : Z * Z) (color : ColorArg)
| Convert (mode : Mode) (im : Image)
| AlphaComposite (im1 im2 : Image)
| Drawn (im : Image) (call : DrawCall).

Fixpoint image_size (im : Image) : Z * Z :=
  match im with
  | New _ size _ => size
  | Convert _ im => image_size im
  | AlphaComposite im1 _ => image_size im1
  | Drawn im _ => image_size im
  end.

Fixpoint image_mode (im : Image) : Mode :=
  match im with
  | New mode _ _ => mode
  | Convert mode _ => mode
  | AlphaComposite im1 _ => image_mode im1
  | Drawn im _ => image_mode im
  end.

Record SavedFile : Type := {
  saved_image : Image;
  saved_format : string;
  saved_quality : Z;
  saved_optimize : bool
}.

Record World : Type := {
  files : FileSystem;
  heap : list Image;
  stdout : list string;
  written : list (string * SavedFile)
}.

Definition initial_world (fs : FileSystem) : World :=
  {| files := fs; heap := []; stdout := []; written := [] |}.

Definition Py (A : Type) : Type := World -> Outcome A * World.

Definition ret {A} (a : A) : Py A := fun w => (Return a, w).

Definition raise {A} (e : Exn) : Py A := fun w => (Raise e, w).

Definition bind {A B} (m : Py A) (k : A -> Py B) : Py B :=
  fun w => match m w with
           | (Return a, w') => k a w'
           | (Raise e, w') => (Raise e, w')
           end.

Definition try_except {A} (body : Py A) (handler : Exn -> Py A) : Py A :=
  fun w => match body w with
           | (Return a, w') => (Return a, w')
           | (Raise e, w') => handler e w'
           end.

#[global] Instance Py_ret : MRet Py := @ret.
#[global] Instance Py_bind : MBind Py := fun A B k m => bind m k.

Definition print (s : string) : Py unit :=
  fun w => (Return tt,
            {| files := files w; heap := heap w; stdout := stdout w ++ [s];
               written := written w |}).

#[global] Instance Image_inhabited : Inhabited Image :=
  populate (New RGB (0, 0) (color_tuple [])).

Definition alloc (v : Image) : Py ref :=
  fun w => (Return (length (heap w)),
            {| files := files w; heap := heap w ++ [v]; stdout := stdout w;
               written := written w |}).

Definition deref (r : ref) : Py Image :=
  fun w => (Return (heap w !!! r), w).

Definition assign (r : ref) (v : Image) : Py unit :=
  fun w => (Return tt,
            {| files := files w; heap := <[r := v]> (heap w);
               stdout := stdout w; written := written w |}).

Definition Image_new (mode : Mode) (size : Z * Z) (color : ColorArg) : Py ref :=
  alloc (New mode size color).

(** [im.convert(mode)] returns a new image. *)
Definition Image_convert (im : ref) (mode : Mode) : Py ref :=
  v ← deref im; alloc (Convert mode v).

Definition Image_alpha_composite (im1 im2 : ref) : Py ref :=
  v1 ← deref im1;
  v2 ← deref im2;
  if Mode_eqb (image_mode v1) RGBA && Mode_eqb (image_mode v2) RGBA
     && (fst (image_size v1) =? fst (image_size v2))
     && (snd (image_size v1) =? snd (image_size v2))
  then alloc (AlphaComposite v1 v2)
  else raise (ValueError "images do not match").

Definition ImageDraw_Draw (im : ref) : Py Draw := ret im.

Definition draw_call (draw : Draw) (c : DrawCall) : Py unit :=
  v ← deref draw; assign draw (Drawn v c).

Definition ImageFont_truetype (path : string) (size : Z) : Py Font :=
  fun w =>
    let file :=
      if String.eqb path bold_path then DejaVuSans_Bold_ttf (files w)
      else if String.eqb path sans_path then DejaVuSans_ttf (files w)
      else None in
    match file with
    | Some content => ret (truetype_font path content size) w
    | None => raise (OSError "cannot open resource") w
    end.

Definition ImageFont_load_default : Py Font := ret default_font.

Definition Image_save (im : ref) (path format : string) (quality : Z)
    (optimize : bool) : Py unit :=
  fun w =>
    if static_writable (files w)
    then (Return tt,
          {| files := files w; heap := heap w; stdout := stdout w;
             written :=
               written w ++
               [(path, {| saved_image := heap w !!! im; saved_format := format;
                          saved_quality := quality;
                          saved_optimize := optimize |})] |})
    else raise (FileNotFoundError path) w.

(** Lines 20-30: four fonts, or the built-in one for all four. *)
Definition load_fonts : Py (Font * Font * Font * Font) :=
  try_except
    (font_name ← ImageFont_truetype bold_path 72;
     font_title ← ImageFont_truetype sans_path 36;
     font_subtitle ← ImageFont_truetype sans_path 24;
     font_logo ← ImageFont_truetype bold_path 160;
     ret (font_name, font_title, font_subtitle, font_logo))
    (fun _ =>
       font_name ← ImageFont_load_default;
       font_title ← ImageFont_load_default;
       font_subtitle ← ImageFont_load_default;
       font_logo ← ImageFont_load_default;
       ret (font_name, font_title, font_subtitle, font_logo)).

(** Lines 10-64. *)
Definition generate_banner : Py unit :=
  let width := 1200 in
  let height := 630 in
  img ← Image_new RGB (width, height) (color_string "#0f172a");
  draw ← ImageDraw_Draw img;
  '(font_name, font_title, font_subtitle, font_logo) ← load_fonts;
  overlay ← Image_new RGBA (width, height) (color_tuple [0; 0; 0; 0]);
  overlay_draw ← ImageDraw_Draw overlay;
  draw_call overlay_draw
    (rectangle ((0, 0), (400, 630)) (color_tuple [102; 126; 234; 25]));;
  draw_call overlay_draw
    (rectangle ((400, 0), (800, 630)) (color_tuple [14; 165; 233; 38]));;
  draw_call overlay_draw
    (rectangle ((800, 0), (1200, 630)) (color_tuple [244; 114; 182; 25]));;
  img_rgba ← Image_convert img RGBA;
  composite ← Image_alpha_composite img_rgba overlay;
  img ← Image_convert composite RGB;
  draw ← ImageDraw_Draw img;
  draw_call draw (text (160, 240) "JW" font_logo (color_string "#0ea5e9"));;
  draw_call draw
    (text (450, 240) "Josh Wentworth" font_name (color_string "#ffffff"));;
  draw_call draw
    (text (450, 340) "Multidisciplinary Engineer" font_title
          (color_string "#94a3b8"));;
  draw_call draw
    (text (450, 400) "Software × Hardware × Fabrication" font_subtitle
          (color_string "#0ea5e9"));;
  overlay2 ← Image_new RGBA (width, height) (color_tuple [0; 0; 0; 0]);
  overlay2_draw ← ImageDraw_Draw overlay2;
  draw_call overlay2_draw
    (ellipse ((1040, 470), (1160, 590)) (color_tuple [102; 126; 234; 13]));;
  draw_call overlay2_draw
    (ellipse ((60, 40), (140, 120)) (color_tuple [14; 165; 233; 13]));;
  img_rgba ← Image_convert img RGBA;
  composite ← Image_alpha_composite img_rgba overlay2;
  img ← Image_convert composite RGB;
  let output_path := "web/static/banner.jpg" in
  Image_save img output_path "JPEG" 95 true;;
  print ("✓ Generated banner: " ++ output_path)%string;;
  print "  Size: 1200x630".

(** The draw calls that contributed to the pixels of [im], lowest layer
    first. *)
Fixpoint layers (im : Image) : list DrawCall :=
  match im with
  | New _ _ _ => []
  | Convert _ im => layers im
  | AlphaComposite im1 im2 => layers im1 ++ layers im2
  | Drawn im c => layers im ++ [c]
  end.

End V1.

(* ================================================================== *)
(** * The vocabulary of the statements *)

(** ** The gradient *)

Definition valid_fill (c : Outcome Color) : bool :=
  match c with
  | Return [r; g; b; a] =>
      (0 <=? r) && (r <=? 255) && (0 <=? g) && (g <=? 255)
      && (0 <=? b) && (b <=? 255) && (25 <=? a) && (a <=? 35)
  | _ => false
  end.

(** The interpolation as the specification words it: three colour stops,
    and between two of them [a + (b - a) * t] on each channel, truncated. *)
Section Interpolation.

Context {N : Type} `{PyNum N}.

Definition purple : Color := [102; 126; 234].
Definition cyan : Color := [14; 165; 233].
Definition pink : Color := [244; 114; 182].

Definition lerp (a b : Z) (t : N) : Outcome Z :=
  to_int (of_int a + of_int (b - a) * t)%py.

Fixpoint lerp_color (A B : Color) (t : N) : Outcome Color :=
  match A, B with
  | a :: A', b :: B' =>
      c ← lerp a b t; rest ← lerp_color A' B' t; mret (c :: rest)
  | _, _ => mret []
  end.

Definition two_stop_gradient (width i : Z) : Outcome Color :=
  let r := (of_int i / of_int width)%py in
  if (r <? of_lit 0.5)%py
  then lerp_color purple cyan (r * of_int 2)%py
  else lerp_color cyan pink ((r - of_lit 0.5) * of_int 2)%py.

End Interpolation.

(** The columns where binary64 and exact arithmetic part: [14 + 230 * t]
    falls just short of an integer in binary64 and the red channel is one
    less. *)
Definition rounding_columns : list Z := [720; 840; 1140].

(** ** Draw calls and icons *)

(** The locals [alpha] and [s] of [draw_icon]. *)
Definition icon_alpha {N} `{PyNum N} (opacity : N) : Outcome Z :=
  to_int (opacity * of_int 255)%py.

Definition icon_scale {N} `{PyNum N} (size : N) : N := (size / of_int 64)%py.

Definition call_color {N} (c : DrawCall N) : Color :=
  match c with
  | rectangle _ outline _ => outline
  | line _ fill _ _ => fill
  | text _ _ _ fill => fill
  end.

Definition call_width {N} (c : DrawCall N) : Z :=
  match c with
  | rectangle _ _ w => w
  | line _ _ w _ => w
  | text _ _ _ _ => 0
  end.

Definition call_points {N} (c : DrawCall N) : list (N * N) :=
  match c with
  | rectangle (p0, p1) _ _ => [p0; p1]
  | line pts _ _ _ => pts
  | text p _ _ _ => [p]
  end.

(** The two widths in exact arithmetic, where [int()] always returns. *)
Definition stroke_width_Q (s : Q) : Z := Z.max 1 (Q_trunc (inject_Z 2 * s)).
Definition band_width_Q (s : Q) : Z := Z.max 1 (Q_trunc s).

(** The widths of the calls of an icon, in the order of the calls, when
    an outline or a line is [w] wide and a band of the resistor [wb]: two
    rectangles and eight pins; window, prompt and cursor; window and
    wave; body, four bands and two leads. *)
Definition expected_widths (icon_type : string) (w wb : Z) : list Z :=
  if String.eqb icon_type "chip" then [w; w; w; w; w; w; w; w; w; w]
  else if String.eqb icon_type "terminal" then [w; w; w]
  else if String.eqb icon_type "wave" then [w; w]
  else if String.eqb icon_type "resistor" then [w; wb; wb; wb; wb; w; w]
  else [].

(** In the shift of a mantissa to the right: whether bits were lost. *)
Definition inexact (mrs : shr_record) : bool := shr_r mrs || shr_s mrs.

(** Python's [round()]: to the nearest integer, a tie to the even one. *)
Definition Q_round (q : Q) : Z :=
  let f := Qfloor q in
  match (q - inject_Z f ?= 1 # 2)%Q with
  | Lt => f
  | Gt => f + 1
  | Eq => if Z.even f then f else f + 1
  end.

(** *** The square of an icon *)


(** *** What a stroke covers *)

(** [ImageDraw.rectangle] draws the outline inward from its two corners,
    whatever the width.  [ImageDraw.line] centres a line of width [w] on
    its path: each segment covers [w/2] on either side across its
    direction and ends with its end points, and with a [joint] a disc of
    diameter [w] sits on every inner point.  The reach of a call lists the
    corners of boxes that hold what the call covers: for a horizontal or a
    vertical segment the box is exact; for a slanted one it is taken [w/2]
    larger on every side, which is more than the stroke takes. *)
Definition pad (hx hy : Q) (p : Q * Q) : list (Q * Q) :=
  [((fst p - hx)%Q, (snd p - hy)%Q); ((fst p + hx)%Q, (snd p + hy)%Q)].

Definition segment_reach (h : Q) (p q : Q * Q) : list (Q * Q) :=
  let hx := if Qeq_bool (snd p) (snd q) then 0%Q else h in
  let hy := if Qeq_bool (fst p) (fst q) then 0%Q else h in
  pad hx hy p ++ pad hx hy q.

Fixpoint path_reach (h : Q) (pts : list (Q * Q)) : list (Q * Q) :=
  match pts with
  | [] => []
  | p :: rest =>
      match rest with
      | [] => []
      | q :: _ => segment_reach h p q ++ path_reach h rest
      end
  end.

Definition inner_points (pts : list (Q * Q)) : list (Q * Q) :=
  removelast (tl pts).

Definition stroke_reach (c : DrawCall Q) : list (Q * Q) :=
  match c with
  | rectangle (p0, p1) _ _ => [p0; p1]
  | line pts _ w joint =>
      let h := (inject_Z w * (1 # 2))%Q in
      pts ++ path_reach h pts
          ++ match joint with
             | Some _ => flat_map (pad h h) (inner_points pts)
             | None => []
             end
  | text p _ _ _ => [p]
  end.

(** The same test, computed. *)
Definition in_squareb (x y size : Q) (p : Q * Q) : bool :=
  Qle_bool x (fst p) && Qle_bool (fst p) (x + size)
  && Qle_bool y (snd p) && Qle_bool (snd p) (y + size).

Definition reach_in_squareb (x y size : Q) (calls : list (DrawCall Q)) : bool :=
  forallb (fun c => forallb (in_squareb x y size) (stroke_reach c)) calls.

(** A binary64 call read in exact arithmetic. *)
Definition call_to_Q (c : DrawCall b64) : DrawCall Q :=
  let pt (p : b64 * b64) := (B64.to_Q (fst p), B64.to_Q (snd p)) in
  match c with
  | rectangle (p0, p1) outline w => rectangle (pt p0, pt p1) outline w
  | line pts fill w joint => line (map pt pts) fill w joint
  | text p s font fill => text (pt p) s font fill
  end.

Definition point_eqb (p q : Q * Q) : bool :=
  Qeq_bool (fst p) (fst q) && Qeq_bool (snd p) (snd q).

Fixpoint points_eqb (l1 l2 : list (Q * Q)) : bool :=
  match l1, l2 with
  | [], [] => true
  | p :: l1', q :: l2' => point_eqb p q && points_eqb l1' l2'
  | _, _ => false
  end.

Definition joint_eqb (a b : option string) : bool :=
  match a, b with
  | None, None => true
  | Some s, Some t => String.eqb s t
  | _, _ => false
  end.

(** Equal calls, coordinates compared as rationals. *)
Definition call_eqb (c d : DrawCall Q) : bool :=
  match c, d with
  | rectangle (p0, p1) o w, rectangle (q0, q1) o' w' =>
      point_eqb p0 q0 && point_eqb p1 q1 && bool_decide (o = o') && (w =? w')
  | line ps f w j, line qs f' w' j' =>
      points_eqb ps qs && bool_decide (f = f') && (w =? w') && joint_eqb j j'
  | _, _ => false
  end.

Fixpoint calls_eqb (l1 l2 : list (DrawCall Q)) : bool :=
  match l1, l2 with
  | [], [] => true
  | c :: l1', d :: l2' => call_eqb c d && calls_eqb l1' l2'
  | _, _ => false
  end.

(** ** Images and computations *)

(** Whether some [draw.text] call with the string [s] contributed to the
    pixels of [im]. *)
Definition is_text_of (s : string) (c : DrawCall b64) : bool :=
  match c with
  | text _ s' _ _ => String.eqb s s'
  | _ => false
  end.

Fixpoint shows_text (s : string) (im : Image) : bool :=
  match im with
  | New _ _ _ | Opened _ _ => false
  | Convert _ im | Resize _ _ im | GaussianBlur _ im => shows_text s im
  | AlphaComposite im1 im2 => shows_text s im1 || shows_text s im2
  | Drawn im c => is_text_of s c || shows_text s im
  | Pasted im src _ mask => shows_text s im || shows_text s src
  end.

(** The draw calls made on the object itself, oldest first. *)
Fixpoint calls_on (im : Image) : list (DrawCall b64) :=
  match im with
  | Drawn im c => calls_on im ++ [c]
  | Pasted im _ _ _ => calls_on im
  | _ => []
  end.

(** Three properties of a computation that sequencing, [try]/[except]
    and loops hand on from the parts to the whole:
    - [seed_blind]: the state of [random] is neither read nor changed;
    - [quiet]: the files read and the files written stay as they are;
    - [total]: no exception leaves the computation. *)
Definition seed_blind {A} (m : Py A) : Prop :=
  forall w g, m (set_random_state g w) = (fst (m w), set_random_state g (snd (m w))).

Definition quiet {A} (m : Py A) : Prop :=
  forall w, files (snd (m w)) = files w /\ written (snd (m w)) = written w.

Definition total {A} (m : Py A) : Prop :=
  forall w, exists a, fst (m w) = Return a.

(** ** Two sets of files *)

(** The logo file is missing; the fonts are there. *)
Definition no_logo_files : FileSystem :=
  {| logo_png := logo_missing;
     DejaVuSans_Bold_ttf := Some "DejaVuSans-Bold";
     DejaVuSans_ttf := Some "DejaVuSans";
     static_writable := true |}.

(** Neither the logo nor any font. *)
Definition bare_files : FileSystem :=
  {| logo_png := logo_missing;
     DejaVuSans_Bold_ttf := None;
     DejaVuSans_ttf := None;
     static_writable := true |}.

Definition JW_call : DrawCall b64 :=
  text (of_int 100, of_int 250) "JW"
       (truetype_font bold_path "DejaVuSans-Bold" 140) [14; 165; 233; 255].

(** ** Geometry of an icon *)

(** A call with [f] applied to each of its points. *)
Definition map_points (f : Q * Q -> Q * Q) (c : DrawCall Q) : DrawCall Q :=
  match c with
  | rectangle (p0, p1) outline w => rectangle (f p0, f p1) outline w
  | line pts fill w joint => line (map f pts) fill w joint
  | text p s font fill => text (f p) s font fill
  end.

Definition shift_point (dx dy : Q) (p : Q * Q) : Q * Q :=
  ((fst p + dx)%Q, (snd p + dy)%Q).

Definition scale_point (x y s : Q) (p : Q * Q) : Q * Q :=
  ((x + s * fst p)%Q, (y + s * snd p)%Q).

(** The corners of a rectangle in the order [ImageDraw.rectangle] wants
    them: the first above and to the left of the second. *)
Definition corners_ordered (c : DrawCall Q) : Prop :=
  match c with
  | rectangle (p0, p1) _ _ => (fst p0 <= fst p1)%Q /\ (snd p0 <= snd p1)%Q
  | _ => True
  end.

(** The calls in each branch of [draw_icon], counted on the source: two
    rectangles and eight pins; window, prompt and cursor; window and wave;
    body, four bands and two leads. *)
Definition icon_call_count (icon_type : string) : nat :=
  if String.eqb icon_type "chip" then 10
  else if String.eqb icon_type "terminal" then 3
  else if String.eqb icon_type "wave" then 2
  else if String.eqb icon_type "resistor" then 7
  else 0.

Definition known_icon (icon_type : string) : bool :=
  existsb (String.eqb icon_type) icon_types.

(** ** Neighbouring columns *)

(** Two colours of one length whose channels differ by one at most. *)
Fixpoint one_step (c d : Color) : bool :=
  match c, d with
  | [], [] => true
  | x :: c', y :: d' => (Z.abs (y - x) <=? 1) && one_step c' d'
  | _, _ => false
  end.

Definition one_step_fills (c d : Outcome Color) : bool :=
  match c, d with
  | Return c, Return d => one_step c d
  | _, _ => false
  end.

(** ** Observations on images *)

(** The images pasted onto the object itself, oldest first, each with
    its box and its mask. *)
Fixpoint pastes_on (im : Image) : list (Image * (Z * Z) * Image) :=
  match im with
  | Pasted im src box mask => pastes_on im ++ [(src, box, mask)]
  | Drawn im _ => pastes_on im
  | _ => []
  end.

(** The image the object was before anything was drawn or pasted on it. *)
Fixpoint base_of (im : Image) : Image :=
  match im with
  | Drawn im _ => base_of im
  | Pasted im _ _ _ => base_of im
  | _ => im
  end.

(** Whether the file [path] contributed to the pixels of [im]. *)
Fixpoint uses_file (path : string) (im : Image) : bool :=
  match im with
  | New _ _ _ => false
  | Opened path' _ => String.eqb path path'
  | Convert _ im | Resize _ _ im | GaussianBlur _ im | Drawn im _ =>
      uses_file path im
  | AlphaComposite im1 im2 => uses_file path im1 || uses_file path im2
  | Pasted im src _ mask => uses_file path im || uses_file path src
  end.

(** Whether a draw call that satisfies [P] contributed to the pixels of
    [im]. *)
Fixpoint drawn_with (P : DrawCall b64 -> bool) (im : Image) : bool :=
  match im with
  | New _ _ _ | Opened _ _ => false
  | Convert _ im | Resize _ _ im | GaussianBlur _ im => drawn_with P im
  | AlphaComposite im1 im2 => drawn_with P im1 || drawn_with P im2
  | Drawn im c => P c || drawn_with P im
  | Pasted im src _ mask => drawn_with P im || drawn_with P src
  end.

(** An outline or a line of one pixel or more: what [draw_icon] draws.
    The lines of the gradient have the default width 0. *)
Definition is_stroke (c : DrawCall b64) : bool :=
  match c with
  | rectangle _ _ _ => true
  | line _ _ w _ => 1 <=? w
  | text _ _ _ _ => false
  end.

(** The calls of the loop of lines 113-114, in order. *)
Definition placed_icon_calls : list (DrawCall b64) :=
  flat_map (fun '(x, y, size, icon, color, opacity) =>
              icon_calls (of_int x) (of_int y) (of_int size) icon color
                         (of_lit opacity))
           icon_positions.

(** The three objects that lines 66-114 leave in the store: the first
    image, the gradient layer and the composite. *)
Definition background_objects : list Image :=
  heap (snd (paint_background (initial_world bare_files 0))).

Definition icons_layer : Image := background_objects !!! 0%nat.
Definition gradient_layer : Image := background_objects !!! 1%nat.

(** What lines 181-183 print. *)
Definition report : list string :=
  ["✓ Generated banner: web/static/banner.jpg";
   "  Size: 1200x630";
   "  Features: Logo, gradient overlay, floating tech icons"].

(** A line that line 140 printed. *)
Definition is_warning (l : string) : bool :=
  String.prefix "Warning: Could not load logo: " l.

(** ** Two logo files *)

(** A logo of 700 by 500: binary64 gives [340 * (700 / 500)] as
    475.99999999999994, and the width is 475. *)
Definition wide_logo : Picture :=
  {| pic_mode := RGBA; pic_width := 700; pic_height := 500; pic_data := "logo" |}.


Definition files_with_logo (p : Picture) : FileSystem :=
  {| logo_png := logo_decodes p;
     DejaVuSans_Bold_ttf := Some "DejaVuSans-Bold";
     DejaVuSans_ttf := Some "DejaVuSans";
     static_writable := true |}.

(* ================================================================== *)
(** * Properties *)

(** ** Ranges *)

Lemma range_spec (n i : Z) : In i (range n) <-> 0 <= i < n.
Proof.
  unfold range, range3. rewrite in_map_iff. split.
  - intros (k & <- & Hk). apply in_seq in Hk.
    replace (n - 0 + 1 - 1) with n in Hk by lia.
    rewrite Z.div_1_r in Hk. lia.
  - intros Hi. exists (Z.to_nat i). split; [lia|].
    apply in_seq. replace (n - 0 + 1 - 1) with n by lia.
    rewrite Z.div_1_r. lia.
Qed.

(** A property checked on every column of the loop holds of each. *)
Lemma forall_columns (P : Z -> bool) :
  forallb P (range width) = true -> forall i, 0 <= i < width -> P i = true.
Proof.
  intros HP i Hi. rewrite forallb_forall in HP. apply HP, range_spec, Hi.
Qed.

(** ** The gradient *)

Lemma gradient_fill_table :
  forallb (fun i => valid_fill (gradient_fill (N := b64) width i)) (range width) = true.
Proof. vm_compute. reflexivity. Qed.

(** C10.  For every column [i] of the loop the fill is a valid 8-bit
    colour: red, green and blue lie in [0, 255] and alpha in [25, 35], so
    the overlay is nowhere opaque. *)
Theorem gradient_fill_valid (i : Z) :
  0 <= i < width ->
  exists r g b a,
    gradient_fill (N := b64) width i = Return [r; g; b; a]
    /\ 0 <= r <= 255 /\ 0 <= g <= 255 /\ 0 <= b <= 255
    /\ 25 <= a <= 35 /\ a < 255.
Proof.
  intros Hi.
  pose proof (forall_columns _ gradient_fill_table i Hi) as Hv. cbv beta in Hv.
  destruct (gradient_fill width i) as [[|r [|g [|b [|a [|? ?]]]]] | e];
    try discriminate.
  exists r, g, b, a. unfold valid_fill in Hv.
  repeat (apply andb_prop in Hv; destruct Hv as [Hv ?]).
  repeat split; lia.
Qed.

Lemma gradient_fill_valid_witness :
  exists r g b a,
    gradient_fill (N := b64) width 720 = Return [r; g; b; a]
    /\ 0 <= r <= 255 /\ 0 <= g <= 255 /\ 0 <= b <= 255
    /\ 25 <= a <= 35 /\ a < 255.
Proof. apply (gradient_fill_valid 720). unfold width. lia. Defined.

(** C1.  The alpha of the centre column is the lowest of the ramp, not
    the highest: 25 at column 600 against 35 at column 0 and 34 at column
    1199. *)
Theorem gradient_alpha_center_below_edges :
  gradient_alpha (N := b64) width 600 = Return 25
  /\ gradient_alpha (N := b64) width 0 = Return 35
  /\ gradient_alpha (N := b64) width (width - 1) = Return 34.
Proof. vm_compute. repeat split. Qed.

(** On the whole loop: no column is less opaque than the centre, none
    more opaque than the left edge. *)
Lemma gradient_alpha_range (i : Z) :
  0 <= i < width ->
  exists a, gradient_alpha (N := b64) width i = Return a /\ 25 <= a <= 35.
Proof.
  intros Hi.
  assert (forallb (fun i => match gradient_alpha (N := b64) width i with
                            | Return a => (25 <=? a) && (a <=? 35)
                            | Raise _ => false
                            end)
                  (range width) = true) as Ht by (vm_compute; reflexivity).
  pose proof (forall_columns _ Ht i Hi) as Hv. cbv beta in Hv.
  destruct (gradient_alpha width i) as [a | e]; [|discriminate].
  exists a. apply andb_prop in Hv. split; [reflexivity | lia].
Qed.

(** The same ramp in exact arithmetic: [25 + 20 * |i/width - 1/2|],
    truncated. *)
Lemma gradient_alpha_exact_center_edges :
  gradient_alpha (N := Q) width 600 = Return 25
  /\ gradient_alpha (N := Q) width 0 = Return 35
  /\ gradient_alpha (N := Q) width (width - 1) = Return 34.
Proof. vm_compute. repeat split. Qed.

(** *** The interpolation *)

Section InterpolationFacts.

Context {N : Type} `{PyNum N}.

(** C7.  The red, green and blue of column [i] are the interpolation
    between purple and cyan with [t = 2r] when [r < 0.5] and between
    cyan and pink with [t = 2(r - 0.5)] otherwise, channel by channel and
    truncated, for [r = i/width]: in binary64 as in exact arithmetic. *)
Theorem gradient_fill_interpolates (width i : Z) :
  gradient_fill width i
  = (rgb ← two_stop_gradient width i;
     alpha ← gradient_alpha width i;
     mret (rgb ++ [alpha])).
Proof.
  unfold gradient_fill, two_stop_gradient, lerp_color, lerp, purple, cyan, pink.
  destruct (of_int i / of_int width <? of_lit 0.5)%py;
    unfold mbind, mret, Outcome_bind, Outcome_ret;
    repeat (destruct (to_int _); [|reflexivity]);
    destruct (gradient_alpha width i); reflexivity.
Qed.

End InterpolationFacts.

(** The stops are met: purple on the left edge, cyan from the centre
    column on, and pink missed by one unit of red on the right edge. *)
Lemma gradient_stops :
  two_stop_gradient (N := b64) width 0 = Return purple
  /\ two_stop_gradient (N := b64) width 600 = Return cyan
  /\ two_stop_gradient (N := b64) width (width - 1) = Return [243; 114; 182].
Proof. vm_compute. repeat split. Qed.

(** Binary64 against exact arithmetic: the same colours on every column
    but three. *)
Lemma gradient_fill_b64_exact (i : Z) :
  0 <= i < width -> ~ In i rounding_columns ->
  gradient_fill (N := b64) width i = gradient_fill (N := Q) width i.
Proof.
  intros Hi Hn.
  assert (forallb (fun i =>
            existsb (Z.eqb i) rounding_columns
            || match gradient_fill (N := b64) width i,
                     gradient_fill (N := Q) width i with
               | Return c, Return c' => bool_decide (c = c')
               | _, _ => false
               end)
          (range width) = true) as Ht by (vm_compute; reflexivity).
  pose proof (forall_columns _ Ht i Hi) as Hv. cbv beta in Hv.
  apply orb_prop in Hv. destruct Hv as [Hv | Hv].
  - exfalso. apply Hn. apply existsb_exists in Hv.
    destruct Hv as (j & Hj & Hij). apply Z.eqb_eq in Hij. now subst j.
  - destruct (gradient_fill (N := b64) width i) as [c | e];
      [|discriminate Hv].
    destruct (gradient_fill (N := Q) width i) as [c' | e'];
      [|discriminate Hv].
    apply bool_decide_eq_true in Hv. now subst.
Qed.

Lemma gradient_fill_b64_rounding :
  map (gradient_fill (N := b64) width) rounding_columns
    = [Return [59; 154; 222; 27]; Return [105; 144; 212; 29];
       Return [220; 119; 187; 34]]
  /\ map (gradient_fill (N := Q) width) rounding_columns
    = [Return [60; 154; 222; 27]; Return [106; 144; 212; 29];
       Return [221; 119; 187; 34]].
Proof. vm_compute. split; reflexivity. Qed.

(** ** [draw_icon] *)

(** *** Widths and unknown types, for any number type *)

Lemma range3_wave : range3 16 49 4 = [16; 20; 24; 28; 32; 36; 40; 44; 48].
Proof. vm_compute. reflexivity. Qed.

(** Unfolds a drawing down to its outcome and its list of calls, the
    conversions [to_int] left as they are. *)
Ltac run_drawing :=
  cbv beta iota zeta delta
    [icon_calls draw_icon draw_rectangle draw_line draw_each stroke_width
     band_width icon_alpha icon_scale evaluate emit mbind mret Drawing_bind
     Drawing_ret Outcome_bind Outcome_ret fst snd app].

Section AnyNumber.

Context {N : Type} `{PyNum N}.

Lemma wave_points_length (x y s : N) : length (wave_points x y s) = 9%nat.
Proof. unfold wave_points. rewrite length_map, range3_wave. reflexivity. Qed.

(** C9.  Every stroke of every icon has a width of at least one pixel.
    With [s = size/64], the width of every outline and line is
    [max(1, int(2*s))] and that of the four bands of the resistor is
    [max(1, int(s))]: call by call, in the order of the calls, whatever
    [int()] returns, a 0 included. *)
Theorem stroke_widths_at_least_1 (x y size : N) (icon_type : string)
    (color : Color) (opacity : N) :
  Forall (fun c => 1 <= call_width c)
         (icon_calls x y size icon_type color opacity)
  /\ forall alpha k2 k1 : Z,
       to_int (opacity * of_int 255)%py = Return alpha ->
       to_int (of_int 2 * (size / of_int 64))%py = Return k2 ->
       to_int (size / of_int 64)%py = Return k1 ->
       map call_width (icon_calls x y size icon_type color opacity)
       = expected_widths icon_type (Z.max 1 k2) (Z.max 1 k1).
Proof.
  unfold icon_calls, draw_icon, expected_widths. rewrite wave_points_length.
  generalize (size / of_int 64)%py as s. intros s.
  run_drawing.
  split.
  - destruct (to_int (opacity * of_int 255)%py) as [alpha | e]; [|constructor].
    destruct (String.eqb icon_type "chip");
      [|destruct (String.eqb icon_type "terminal");
        [|destruct (String.eqb icon_type "wave");
          [|destruct (String.eqb icon_type "resistor")]]].
    all: destruct (to_int (of_int 2 * s)%py) as [k2 | e2].
    all: try (destruct (to_int s) as [k1 | e1]).
    all: cbv beta iota zeta delta [fst snd app].
    all: repeat constructor; cbn [call_width]; lia.
  - intros alpha k2 k1 -> -> E1.
    destruct (String.eqb icon_type "chip");
      [|destruct (String.eqb icon_type "terminal");
        [|destruct (String.eqb icon_type "wave");
          [|destruct (String.eqb icon_type "resistor")]]].
    all: try rewrite E1.
    all: reflexivity.
Qed.

(** With a type outside the four names all that is left of [draw_icon] is
    the conversion of the opacity. *)
Lemma draw_icon_unknown (x y size : N) (icon_type : string)
    (color : Color) (opacity : N) :
  ~ In icon_type icon_types ->
  draw_icon x y size icon_type color opacity
  = evaluate (alpha ← icon_alpha opacity; mret tt).
Proof.
  intros Hn. unfold draw_icon.
  destruct (String.eqb icon_type "chip") eqn:E1;
    [apply String.eqb_eq in E1; exfalso; apply Hn; subst; simpl; auto|].
  destruct (String.eqb icon_type "terminal") eqn:E2;
    [apply String.eqb_eq in E2; exfalso; apply Hn; subst; simpl; auto|].
  destruct (String.eqb icon_type "wave") eqn:E3;
    [apply String.eqb_eq in E3; exfalso; apply Hn; subst; simpl; auto|].
  destruct (String.eqb icon_type "resistor") eqn:E4;
    [apply String.eqb_eq in E4; exfalso; apply Hn; subst; simpl; auto 6|].
  run_drawing. destruct (to_int _); reflexivity.
Qed.

End AnyNumber.

(** C8.  For an [icon_type] outside the four names [draw_icon] makes no
    draw call and leaves the store, with every image in it, as it was;
    given an opacity that [int()] takes, it returns without an
    exception. *)
Theorem unknown_icon_is_no_op (icon_type : string) :
  ~ In icon_type icon_types ->
  forall (draw : Draw) (x y size opacity : b64) (color : Color) (w : World),
    icon_calls x y size icon_type color opacity = []
    /\ snd (call_draw_icon draw x y size icon_type color opacity w) = w
    /\ (forall alpha, icon_alpha opacity = Return alpha ->
        fst (call_draw_icon draw x y size icon_type color opacity w) = Return tt).
Proof.
  intros Hn draw x y size opacity color w.
  unfold icon_calls, call_draw_icon. rewrite draw_icon_unknown by exact Hn.
  unfold evaluate. cbn [snd fst for_each]. repeat split.
  intros alpha Ha. rewrite Ha. reflexivity.
Qed.

Lemma unknown_icon_is_no_op_witness :
  let w := initial_world bare_files 0 in
  let call := call_draw_icon 0%nat (of_int 80) (of_int 80) (of_int 48) "gear"
                             [102; 126; 234] (of_lit 0.10) in
  icon_calls (N := b64) (of_int 80) (of_int 80) (of_int 48) "gear"
             [102; 126; 234] (of_lit 0.10) = []
  /\ snd (call w) = w
  /\ fst (call w) = Return tt.
Proof.
  assert (~ In "gear" icon_types) as Hn.
  { unfold icon_types. simpl. intros [E | [E | [E | [E | []]]]]; discriminate E. }
  destruct (unknown_icon_is_no_op "gear" Hn 0%nat (of_int 80) (of_int 80)
              (of_int 48) (of_lit 0.10) [102; 126; 234]
              (initial_world bare_files 0)) as (Hc & Hw & Hr).
  split; [exact Hc|]. split; [exact Hw|].
  apply (Hr 25). vm_compute. reflexivity.
Defined.

(** A resistor of size 200 in binary64: [s] is 3.125, the body and the
    leads are 6 pixels wide and the bands 3. *)
Lemma stroke_widths_at_least_1_witness :
  map call_width
      (icon_calls (N := b64) (of_int 1050) (of_int 500) (of_int 200) "resistor"
                  [102; 126; 234] (of_lit 0.09))
  = [6; 3; 3; 3; 3; 6; 6].
Proof.
  apply (proj2 (stroke_widths_at_least_1 (N := b64) (of_int 1050) (of_int 500)
                  (of_int 200) "resistor" [102; 126; 234] (of_lit 0.09))
               22 6 3); vm_compute; reflexivity.
Defined.

(** The icon of size 24 that the script places: [2 * s] is 0.75, [int]
    gives 0, and each of the ten strokes is one pixel wide. *)
Lemma small_icon_widths :
  to_int (N := b64) (of_int 2 * icon_scale (of_int 24))%py = Return 0
  /\ map call_width
         (icon_calls (N := b64) (of_int 280) (of_int 150) (of_int 24) "chip"
                     [14; 165; 233] (of_lit 0.15))
     = [1; 1; 1; 1; 1; 1; 1; 1; 1; 1].
Proof. vm_compute. split; reflexivity. Qed.

(** *** The alpha channel of an icon *)

(** On a rational that is not negative [int()] is the floor. *)
Lemma Q_trunc_floor (q : Q) : (0 <= q)%Q -> Q_trunc q = Qfloor q.
Proof.
  destruct q as [n d]. unfold Qle, Q_trunc, Qfloor. cbn [Qnum Qden].
  intros Hn. apply Z.quot_div_nonneg; lia.
Qed.

Lemma Q_round_floor (q : Q) : Qfloor q <= Q_round q <= Qfloor q + 1.
Proof.
  unfold Q_round. destruct (_ ?= _)%Q; [destruct (Z.even _)| |]; lia.
Qed.

Lemma icon_alpha_floor (opacity : Q) :
  (0 <= opacity)%Q -> icon_alpha opacity = Return (Qfloor (opacity * 255)).
Proof.
  intros H0. unfold icon_alpha. cbn [to_int nmul of_int Q_PyNum]. f_equal.
  apply Q_trunc_floor. apply Qmult_le_0_compat; [exact H0 | discriminate].
Qed.

(** Every call of an icon carries the colour with the alpha appended. *)
Lemma icon_calls_color {N} `{PyNum N} (x y size : N) (icon_type : string)
    (color : Color) (opacity : N) (alpha : Z) :
  icon_alpha opacity = Return alpha ->
  Forall (fun c => call_color c = color ++ [alpha])
         (icon_calls x y size icon_type color opacity).
Proof.
  intros Ha. unfold icon_calls, draw_icon. rewrite wave_points_length.
  fold (icon_alpha opacity). rewrite Ha.
  generalize (size / of_int 64)%py as s. intros s.
  run_drawing.
  destruct (String.eqb icon_type "chip");
    [|destruct (String.eqb icon_type "terminal");
      [|destruct (String.eqb icon_type "wave");
        [|destruct (String.eqb icon_type "resistor")]]].
  all: destruct (to_int (of_int 2 * s)%py) as [k2 | e2].
  all: try (destruct (to_int s) as [k1 | e1]).
  all: cbv beta iota zeta delta [fst snd app].
  all: repeat constructor.
Qed.

(** *** Rounding to binary64 *)

(** [SpecFloat] gives the operations of binary64 as programs.  What
    follows reads the one that rounds, [binary_round_aux], on a mantissa
    that is given exactly, as a product of two mantissas is: enough for
    [int(opacity * 255)]. *)

Lemma pow2_pos (n : Z) : 0 <= n -> 0 < 2 ^ n.
Proof. intros H. apply Z.pow_pos_nonneg; lia. Qed.

Lemma pow2_lt_inv (a b : Z) : 0 <= b -> 2 ^ a < 2 ^ b -> a < b.
Proof. intros Hb H. apply (Z.pow_lt_mono_r_iff 2); lia. Qed.

Lemma digits2_size (p : positive) : digits2_pos p = Pos.size p.
Proof. induction p; cbn; congruence. Qed.

Lemma digits2_bounds (p : positive) :
  2 ^ (Zpos (digits2_pos p) - 1) <= Zpos p < 2 ^ Zpos (digits2_pos p).
Proof.
  rewrite digits2_size. split.
  - pose proof (Pos.size_le p) as H.
    assert (Zpos (2 ^ Pos.size p) <= Zpos p~0) as H' by exact H.
    rewrite Pos2Z.inj_pow, (Pos2Z.inj_xO p) in H'.
    replace (Zpos (Pos.size p)) with (Zpos (Pos.size p) - 1 + 1) in H' by lia.
    rewrite Z.pow_add_r in H' by lia. change (2 ^ 1) with 2 in H'. lia.
  - pose proof (Pos.size_gt p) as H.
    assert (Zpos p < Zpos (2 ^ Pos.size p)) as H' by exact H.
    rewrite Pos2Z.inj_pow in H'. exact H'.
Qed.

Lemma shr_1_spec (mrs : shr_record) :
  0 <= shr_m mrs ->
  shr_m (shr_1 mrs) = shr_m mrs / 2 ^ 1
  /\ inexact (shr_1 mrs) = inexact mrs || negb (shr_m mrs mod 2 ^ 1 =? 0).
Proof.
  destruct mrs as [m r s]. unfold inexact. cbn [shr_m shr_r shr_s].
  intros Hm. change (2 ^ 1) with 2.
  destruct m as [|p|p]; [| |lia].
  - cbn. rewrite orb_false_r. split; reflexivity.
  - destruct p as [p|p|].
    + cbn [shr_1 shr_m shr_r shr_s].
      rewrite Pos2Z.inj_xI.
      replace ((2 * Zpos p + 1) / 2) with (Zpos p)
        by (apply Z.div_unique with 1; lia).
      replace ((2 * Zpos p + 1) mod 2) with 1
        by (apply Z.mod_unique with (Zpos p); lia).
      cbn. rewrite orb_true_r. split; reflexivity.
    + cbn [shr_1 shr_m shr_r shr_s].
      rewrite Pos2Z.inj_xO.
      replace ((2 * Zpos p) / 2) with (Zpos p)
        by (apply Z.div_unique with 0; lia).
      replace ((2 * Zpos p) mod 2) with 0
        by (apply Z.mod_unique with (Zpos p); lia).
      cbn. rewrite orb_false_r. split; reflexivity.
    + cbn. rewrite orb_true_r. split; reflexivity.
Qed.

Lemma mod_pow2_split (m a b : Z) :
  0 <= a -> 0 <= b ->
  (m mod 2 ^ (a + b) =? 0)
  = (m mod 2 ^ a =? 0) && ((m / 2 ^ a) mod 2 ^ b =? 0).
Proof.
  intros Ha Hb.
  assert (0 < 2 ^ a) as Pa by (apply Z.pow_pos_nonneg; lia).
  assert (0 < 2 ^ b) as Pb by (apply Z.pow_pos_nonneg; lia).
  rewrite Z.pow_add_r by lia.
  rewrite Z.rem_mul_r by lia.
  pose proof (Z.mod_pos_bound m (2 ^ a) Pa) as H1.
  pose proof (Z.mod_pos_bound (m / 2 ^ a) (2 ^ b) Pb) as H2.
  destruct (Z.eqb_spec (m mod 2 ^ a) 0) as [E1 | E1];
    destruct (Z.eqb_spec ((m / 2 ^ a) mod 2 ^ b) 0) as [E2 | E2]; cbn;
    apply Z.eqb_eq || apply Z.eqb_neq; nia.
Qed.

Lemma iter_shr_spec (p : positive) (mrs : shr_record) :
  0 <= shr_m mrs ->
  shr_m (SpecFloat.iter_pos shr_1 p mrs) = shr_m mrs / 2 ^ Zpos p
  /\ inexact (SpecFloat.iter_pos shr_1 p mrs)
     = inexact mrs || negb (shr_m mrs mod 2 ^ Zpos p =? 0).
Proof.
  revert mrs. induction p as [p IH | p IH |]; intros mrs Hm.
  - cbn [SpecFloat.iter_pos].
    destruct (shr_1_spec mrs Hm) as [M1 I1].
    assert (0 <= shr_m (shr_1 mrs)) as H1
        by (rewrite M1; apply Z.div_pos; lia).
    destruct (IH _ H1) as [M2 I2].
    assert (0 <= shr_m (SpecFloat.iter_pos shr_1 p (shr_1 mrs))) as H2.
    { rewrite M2. apply Z.div_pos; [lia | apply Z.pow_pos_nonneg; lia]. }
    destruct (IH _ H2) as [M3 I3].
    rewrite Pos2Z.inj_xI.
    replace (2 * Zpos p + 1) with (1 + (Zpos p + Zpos p)) by lia.
    split.
    + rewrite M3, M2, M1.
      rewrite !Z.div_div by (try apply Z.pow_pos_nonneg; lia).
      rewrite <- !Z.pow_add_r by lia. reflexivity.
    + rewrite I3, I2, I1, M2, M1.
      rewrite (mod_pow2_split (shr_m mrs) 1 (Zpos p + Zpos p)) by lia.
      rewrite (mod_pow2_split (shr_m mrs / 2 ^ 1) (Zpos p) (Zpos p)) by lia.
      rewrite !negb_andb, !orb_assoc. reflexivity.
  - cbn [SpecFloat.iter_pos].
    destruct (IH _ Hm) as [M2 I2].
    assert (0 <= shr_m (SpecFloat.iter_pos shr_1 p mrs)) as H2.
    { rewrite M2. apply Z.div_pos; [lia | apply Z.pow_pos_nonneg; lia]. }
    destruct (IH _ H2) as [M3 I3].
    rewrite (Pos2Z.inj_xO p).
    replace (2 * Zpos p) with (Zpos p + Zpos p) by lia.
    split.
    + rewrite M3, M2.
      rewrite !Z.div_div by (try apply Z.pow_pos_nonneg; lia).
      rewrite <- !Z.pow_add_r by lia. reflexivity.
    + rewrite I3, I2, M2.
      rewrite (mod_pow2_split (shr_m mrs) (Zpos p) (Zpos p)) by lia.
      rewrite !negb_andb, !orb_assoc. reflexivity.
  - cbn [SpecFloat.iter_pos]. apply shr_1_spec, Hm.
Qed.

Lemma fexp64 (z : Z) : SpecFloat.fexp 53 1024 z = Z.max (z - 53) (-1074).
Proof. reflexivity. Qed.

Lemma shr_exact_spec (m e n : Z) :
  0 <= m ->
  let k := Z.max n 0 in
  shr_m (fst (shr (Build_shr_record m false false) e n)) = m / 2 ^ k
  /\ snd (shr (Build_shr_record m false false) e n) = e + k
  /\ inexact (fst (shr (Build_shr_record m false false) e n))
     = negb (m mod 2 ^ k =? 0).
Proof.
  intros Hm k. subst k. destruct n as [|p|p]; cbn [shr fst snd Z.max Z.compare].
  - cbn [shr_m]. rewrite Z.div_1_r, Z.mod_1_r, Z.add_0_r. repeat split.
  - replace (Z.max (Z.pos p) 0) with (Zpos p) by lia.
    destruct (iter_shr_spec p (Build_shr_record m false false) Hm) as [M1 I1].
    cbn [shr_m] in M1, I1. repeat split; assumption.
  - replace (Z.max (Z.neg p) 0) with 0 by lia.
    cbn [shr_m]. rewrite Z.div_1_r, Z.mod_1_r, Z.add_0_r. repeat split.
Qed.

Lemma rne_bounds (mrs : shr_record) :
  let m1 := round_nearest_even (shr_m mrs) (loc_of_shr_record mrs) in
  shr_m mrs <= m1 <= shr_m mrs + 1
  /\ (inexact mrs = false -> m1 = shr_m mrs).
Proof.
  destruct mrs as [m [|] [|]]; cbn; try destruct (Z.even m);
    split; try lia; intros E; try discriminate E; reflexivity.
Qed.

(** What [binary_round_aux] computes from a positive mantissa that is
    given exactly: a shift to 53 digits, a rounding of the last place, a
    second shift when the rounding carried. *)
Lemma binary_round_aux_spec (M : positive) (E : Z) :
  let k := Z.max (Z.max (Zpos (digits2_pos M) + E - 53) (-1074) - E) 0 in
  exists m1,
    Zpos M / 2 ^ k <= m1 <= Zpos M / 2 ^ k + 1
    /\ (Zpos M mod 2 ^ k = 0 -> m1 = Zpos M / 2 ^ k)
    /\ let k2 := Z.max (Z.max (Zdigits2 m1 + (E + k) - 53) (-1074) - (E + k)) 0 in
       binary_round_aux 53 1024 false (Zpos M) E loc_Exact
       = match m1 / 2 ^ k2 with
         | Z0 => S754_zero false
         | Zpos m => if E + k + k2 <=? 971
                     then S754_finite false m (E + k + k2)
                     else S754_infinity false
         | Zneg _ => S754_nan
         end.
Proof.
  intros k.
  unfold binary_round_aux, shr_fexp. cbn [shr_record_of_loc Zdigits2].
  rewrite !fexp64.
  pose proof (shr_exact_spec (Zpos M) E
                (Z.max (Zpos (digits2_pos M) + E - 53) (-1074) - E)
                ltac:(lia)) as H1.
  fold k in H1. cbv zeta in H1.
  destruct (shr (Build_shr_record (Zpos M) false false) E
                (Z.max (Zpos (digits2_pos M) + E - 53) (-1074) - E))
    as [mrs' e'].
  cbn [fst snd] in H1. destruct H1 as (Hm' & He' & Hi').
  pose proof (rne_bounds mrs') as [Hb Hx]. cbv zeta in Hb, Hx.
  set (m1 := round_nearest_even (shr_m mrs') (loc_of_shr_record mrs')) in *.
  exists m1. rewrite Hm' in Hb, Hx.
  split; [exact Hb|]. split.
  { intros Hd. apply Hx. rewrite Hi', Hd. reflexivity. }
  cbv zeta. subst e'. rewrite fexp64. change (1024 - 53) with 971.
  assert (0 <= m1) as Hm1.
  { assert (0 <= Zpos M / 2 ^ k)
      by (apply Z.div_pos; [lia | apply Z.pow_pos_nonneg; lia]). lia. }
  pose proof (shr_exact_spec m1 (E + k)
                (Z.max (Zdigits2 m1 + (E + k) - 53) (-1074) - (E + k)) Hm1) as H2.
  cbv zeta in H2.
  destruct (shr (Build_shr_record m1 false false) (E + k)
                (Z.max (Zdigits2 m1 + (E + k) - 53) (-1074) - (E + k)))
    as [mrs'' e''].
  cbn [fst snd] in H2. destruct H2 as (Hm'' & He'' & _).
  rewrite Hm''. subst e''. reflexivity.
Qed.

(** [int()] of a finite binary64, with any scaling that clears the
    exponent. *)
Lemma trunc_scaled (s : bool) (m : positive) (e N : Z) :
  0 <= N -> 0 <= e + N ->
  B64.trunc (S754_finite s m e)
  = (if s then -1 else 1) * (Zpos m * 2 ^ (e + N) / 2 ^ N).
Proof.
  intros HN HeN.
  assert (Zpos m * 2 ^ (e + N) / 2 ^ N
          = match e with
            | Zneg p => Z.shiftr (Zpos m) (Zpos p)
            | _ => Z.shiftl (Zpos m) e
            end) as E.
  { destruct e as [|p|p].
    - rewrite Z.shiftl_mul_pow2 by lia. cbn [Z.add]. rewrite Z.pow_0_r.
      rewrite Z.mul_1_r. apply Z.div_mul. pose proof (pow2_pos N HN). lia.
    - rewrite Z.shiftl_mul_pow2 by lia. rewrite Z.pow_add_r by lia.
      rewrite Z.mul_assoc. apply Z.div_mul. pose proof (pow2_pos N HN). lia.
    - rewrite Z.shiftr_div_pow2 by lia.
      assert (N = (Z.neg p + N) + Zpos p) as EN
        by (rewrite <- (Pos2Z.opp_pos p); lia).
      remember (Z.neg p + N) as c eqn:Ec. rewrite EN.
      rewrite Z.pow_add_r by lia.
      rewrite (Z.mul_comm (Zpos m)).
      rewrite Z.div_mul_cancel_l.
      + reflexivity.
      + pose proof (pow2_pos (Zpos p)). lia.
      + pose proof (pow2_pos c). lia. }
  unfold B64.trunc. rewrite <- E. destruct s; lia.
Qed.

(** Shifting the mantissa right by [k] bits before the integer part is
    taken loses nothing, when the shifted exponent is not above 0. *)
Lemma scaled_floor_shift (m k e N : Z) :
  0 <= m -> 0 <= k -> k = 0 \/ e + k <= 0 -> 0 <= N -> 0 <= e + N ->
  m / 2 ^ k * 2 ^ (e + k + N) / 2 ^ N = m * 2 ^ (e + N) / 2 ^ N.
Proof.
  intros Hm Hk [-> | Hle] HN HeN.
  - rewrite Z.pow_0_r, Z.div_1_r, Z.add_0_r. reflexivity.
  - set (c := 2 ^ (e + N)).
    assert (0 < c) as Hc by (apply pow2_pos; lia).
    pose proof (pow2_pos k Hk) as Hpk.
    pose proof (pow2_pos (- (e + k)) ltac:(lia)) as Hpr.
    assert (2 ^ N = c * (2 ^ k * 2 ^ (- (e + k)))) as EN.
    { unfold c. rewrite <- !Z.pow_add_r by lia. f_equal. lia. }
    assert (2 ^ (e + k + N) = 2 ^ k * c) as Eu.
    { unfold c. rewrite <- Z.pow_add_r by lia. f_equal. lia. }
    rewrite EN, Eu.
    rewrite (Z.mul_comm m c), Z.div_mul_cancel_l by lia.
    rewrite (Z.mul_assoc (m / 2 ^ k)), (Z.mul_comm (m / 2 ^ k * 2 ^ k) c).
    rewrite Z.div_mul_cancel_l by lia.
    rewrite <- !Z.div_div by lia.
    rewrite Z.div_mul by lia. reflexivity.
Qed.

(** The product [M * 2^E], rounded and then truncated by [int()]: when
    it is at most an integer [B] below [2^53], the result is the integer
    part of the exact product or one more, and at most [B].  The scaling
    by [2^N], [N = max(-E, 0)], keeps the statement in the integers. *)
Lemma round_then_int (M : positive) (E B : Z) :
  0 <= B < 2 ^ 53 ->
  Zpos M * 2 ^ (E + Z.max (- E) 0) <= B * 2 ^ Z.max (- E) 0 ->
  exists a,
    B64.to_int (binary_round_aux 53 1024 false (Zpos M) E loc_Exact) = Return a
    /\ 0 <= a <= B
    /\ Zpos M * 2 ^ (E + Z.max (- E) 0) / 2 ^ Z.max (- E) 0 <= a
       <= Zpos M * 2 ^ (E + Z.max (- E) 0) / 2 ^ Z.max (- E) 0 + 1.
Proof.
  intros [HB0 HB]. set (N := Z.max (- E) 0). intros HV.
  assert (0 <= N) as HN by lia. assert (0 <= E + N) as HEN by lia.
  pose proof (digits2_bounds M) as [Hd _].
  pose proof (binary_round_aux_spec M E) as Hspec. cbv zeta in Hspec.
  set (d := Zpos (digits2_pos M)) in *.
  assert (1 <= d) as Hd1 by (pose proof (Pos2Z.is_pos (digits2_pos M)); fold d in H; lia).
  pose proof (pow2_pos N HN) as HpN. pose proof (pow2_pos (E + N) HEN) as HpEN.
  assert (d + E <= 53) as F1.
  { assert (2 ^ (d - 1 + (E + N)) < 2 ^ (53 + N)) as Hlt.
    { rewrite (Z.pow_add_r 2 (d - 1)), (Z.pow_add_r 2 53) by lia.
      assert (2 ^ (d - 1) * 2 ^ (E + N) <= Zpos M * 2 ^ (E + N))
        by (apply Z.mul_le_mono_nonneg_r; lia).
      assert (B * 2 ^ N < 2 ^ 53 * 2 ^ N)
        by (apply Z.mul_lt_mono_pos_r; lia).
      lia. }
    apply pow2_lt_inv in Hlt; lia. }
  assert (E <= 52) as F0 by lia.
  set (k := Z.max (Z.max (d + E - 53) (-1074) - E) 0) in *.
  destruct Hspec as (m1 & Hm1 & Hex & Hr).
  assert (0 <= k) as Hk by lia.
  pose proof (pow2_pos k Hk) as Hpk.
  assert (0 <= Zpos M / 2 ^ k) as Hm' by (apply Z.div_pos; lia).
  assert (E + k <= 52) as He' by lia.
  assert (m1 * 2 ^ (E + k + N) <= B * 2 ^ N) as F3.
  { destruct (Z.eq_dec k 0) as [k0|kpos].
    - rewrite k0 in *. rewrite Z.pow_0_r in *. rewrite Z.div_1_r in *.
      rewrite Z.mod_1_r in Hex. rewrite (Hex eq_refl). rewrite Z.add_0_r. exact HV.
    - assert (E + k <= 0) as Hneg by lia.
      assert (2 ^ N = 2 ^ (E + k + N) * 2 ^ (- (E + k))) as EN.
      { rewrite <- Z.pow_add_r by lia. f_equal. lia. }
      assert (2 ^ (E + k + N) = 2 ^ k * 2 ^ (E + N)) as Eu.
      { rewrite <- Z.pow_add_r by lia. f_equal; lia. }
      pose proof (Z.div_mod (Zpos M) (2 ^ k) ltac:(lia)) as Hdm.
      pose proof (Z.mod_pos_bound (Zpos M) (2 ^ k) Hpk) as Hmb.
      pose proof (pow2_pos (E + k + N) ltac:(lia)) as Hpu.
      pose proof (pow2_pos (- (E + k)) ltac:(lia)) as Hpc.
      destruct (Z.eq_dec (Zpos M mod 2 ^ k) 0) as [r0|rpos].
      + rewrite (Hex r0). rewrite Eu. rewrite r0 in Hdm.
        rewrite Z.mul_assoc. rewrite (Z.mul_comm _ (2 ^ k)).
        replace (2 ^ k * (Zpos M / 2 ^ k)) with (Zpos M) by lia. exact HV.
      + set (u := 2 ^ (E + k + N)) in *. set (c := 2 ^ (- (E + k))) in *.
        set (m' := Z.pos M / 2 ^ k) in *.
        set (r := Z.pos M mod 2 ^ k) in *.
        set (v := 2 ^ (E + N)) in *.
        assert (m' * u < Z.pos M * v) as H2.
        { rewrite Eu. rewrite Hdm at 1.
          assert (0 < r * v) by (apply Z.mul_pos_pos; lia). lia. }
        rewrite EN in HV |- *.
        assert (m' < B * c) as H3 by nia.
        nia. }
  set (e' := E + k) in *.
  set (k2 := Z.max (Z.max (Zdigits2 m1 + e' - 53) (-1074) - e') 0) in *.
  assert (0 <= k2) as Hk2 by lia.
  pose proof (pow2_pos k2 Hk2) as Hpk2.
  pose proof (pow2_pos (e' + N) ltac:(lia)) as Hpu.
  assert (0 <= m1) as Hm10 by lia.
  assert (Zdigits2 m1 + e' <= 53) as F4.
  { destruct m1 as [|p|p]; [cbn [Zdigits2]; lia| |lia].
    cbn [Zdigits2]. pose proof (digits2_bounds p) as [Hl _].
    set (d1 := Zpos (digits2_pos p)) in *.
    assert (1 <= d1) as Hd11 by (pose proof (Pos2Z.is_pos (digits2_pos p)) as Hp; fold d1 in Hp; lia).
    assert (2 ^ (d1 - 1 + (e' + N)) < 2 ^ (53 + N)) as Hlt.
    { rewrite (Z.pow_add_r 2 (d1 - 1)), (Z.pow_add_r 2 53) by lia.
      assert (2 ^ (d1 - 1) * 2 ^ (e' + N) <= Zpos p * 2 ^ (e' + N))
        by (apply Z.mul_le_mono_nonneg_r; lia).
      assert (B * 2 ^ N < 2 ^ 53 * 2 ^ N)
        by (apply Z.mul_lt_mono_pos_r; lia).
      lia. }
    apply pow2_lt_inv in Hlt; lia. }
  assert (e' + k2 <= 971) as F5 by lia.
  assert (m1 / 2 ^ k2 * 2 ^ (e' + k2 + N) / 2 ^ N = m1 * 2 ^ (e' + N) / 2 ^ N)
    as A1 by (apply scaled_floor_shift; lia).
  assert (Zpos M / 2 ^ k * 2 ^ (e' + N) / 2 ^ N = Zpos M * 2 ^ (E + N) / 2 ^ N)
    as A2 by (apply scaled_floor_shift; lia).
  assert (Zpos M * 2 ^ (E + N) / 2 ^ N <= m1 * 2 ^ (e' + N) / 2 ^ N
          <= Zpos M * 2 ^ (E + N) / 2 ^ N + 1) as A3.
  { rewrite <- A2. split.
    - apply Z.div_le_mono; [lia|]. apply Z.mul_le_mono_nonneg_r; lia.
    - destruct (Z.eq_dec k 0) as [k0|kpos].
      + assert (m1 = Zpos M / 2 ^ k) as ->; [|lia].
        apply Hex. rewrite k0. apply Z.mod_1_r.
      + assert (e' <= 0) as Hneg by lia.
        pose proof (pow2_pos (- e') ltac:(lia)) as Hpc.
        assert (2 ^ N = 2 ^ (e' + N) * 2 ^ (- e')) as EN.
        { rewrite <- Z.pow_add_r by lia. f_equal. lia. }
        rewrite EN.
        rewrite (Z.mul_comm m1), (Z.mul_comm (Zpos M / 2 ^ k)).
        rewrite !Z.div_mul_cancel_l by lia.
        transitivity ((Zpos M / 2 ^ k + 1 * 2 ^ (- e')) / 2 ^ (- e')).
        * apply Z.div_le_mono; lia.
        * rewrite Z.div_add by lia. lia. }
  assert (m1 * 2 ^ (e' + N) / 2 ^ N <= B) as A4
    by (apply Z.div_le_upper_bound; lia).
  assert (0 <= m1 * 2 ^ (e' + N) / 2 ^ N) as A5
    by (apply Z.div_pos; [apply Z.mul_nonneg_nonneg|]; lia).
  rewrite Hr. clear Hr.
  destruct (m1 / 2 ^ k2) as [|m|m] eqn:Em''.
  - exists 0. split; [reflexivity|]. rewrite Z.mul_0_l, Z.div_0_l in A1 by lia.
    rewrite <- A1 in A3, A4. lia.
  - destruct (Z.leb_spec (e' + k2) 971) as [_|Hgt]; [|lia].
    exists (B64.trunc (S754_finite false m (e' + k2))). split; [reflexivity|].
    rewrite (trunc_scaled false m (e' + k2) N) by lia.
    rewrite Z.mul_1_l, A1. lia.
  - pose proof (Z.div_pos m1 (2 ^ k2) Hm10 Hpk2). lia.
Qed.

(** 255 as a binary64: [255 * 2^45] at the exponent -45. *)
Lemma b64_255 : B64.of_Z 255 = S754_finite false 8972014882652160 (-45).
Proof. vm_compute. reflexivity. Qed.

(** A binary64 in [0, 1] is 0, or 1, or [m * 2^-p] with [m <= 2^p]. *)
Lemma b64_unit_interval (s : bool) (m : positive) (e : Z) :
  (0 <= B64.to_Q (S754_finite s m e) <= 1)%Q ->
  s = false
  /\ (e = 0 /\ m = 1%positive
      \/ exists p, e = Zneg p /\ Zpos m <= 2 ^ Zpos p).
Proof.
  intros [H0 H1]. destruct s.
  - exfalso. revert H0. cbn [B64.to_Q].
    destruct e as [|p|p]; unfold Qle, Qopp, inject_Z; cbn [Qnum Qden].
    + rewrite Z.shiftl_0_r. lia.
    + rewrite Z.shiftl_mul_pow2 by lia. pose proof (pow2_pos (Zpos p)). nia.
    + lia.
  - split; [reflexivity|]. revert H1. cbn [B64.to_Q].
    destruct e as [|p|p]; unfold Qle, inject_Z; cbn [Qnum Qden].
    + rewrite Z.shiftl_0_r. intros H. left. split; [reflexivity | lia].
    + rewrite Z.shiftl_mul_pow2 by lia. intros H. exfalso.
      assert (2 <= 2 ^ Zpos p).
      { change 2 with (2 ^ 1) at 1. apply Z.pow_le_mono_r; lia. }
      nia.
    + intros H. right. exists p. split; [reflexivity|].
      rewrite Pos2Z.inj_pow in H. lia.
Qed.

(** [int(opacity * 255)] in binary64, for an opacity in [0, 1]: the
    product is rounded once, to the nearest binary64, and [int()] takes
    its integer part. *)
Lemma icon_alpha_b64 (opacity : b64) :
  B64.is_finite opacity = true ->
  (0 <= B64.to_Q opacity <= 1)%Q ->
  exists alpha,
    icon_alpha opacity = Return alpha
    /\ 0 <= alpha <= 255
    /\ Qfloor (B64.to_Q opacity * 255) <= alpha
       <= Qfloor (B64.to_Q opacity * 255) + 1.
Proof.
  intros Hfin Hq. unfold icon_alpha. cbn [to_int nmul of_int b64_PyNum].
  rewrite b64_255.
  destruct opacity as [s | s | | s m e]; try discriminate Hfin.
  - exists 0. split; [destruct s; reflexivity|]. split; [lia|].
    cbn [B64.to_Q]. change (Qfloor (0 * 255)) with 0. lia.
  - destruct (b64_unit_interval s m e Hq) as [-> [[-> ->] | (p & -> & Hm)]].
    + exists 255. vm_compute. repeat split; discriminate.
    + unfold B64.mul, SFmul, B64.prec, B64.emax. cbn [xorb].
      destruct (round_then_int (m * 8972014882652160) (Z.neg p + -45) 255)
        as (a & Ea & Hb & Hf).
      * vm_compute. split; [discriminate | reflexivity].
      * replace (Z.max (- (Z.neg p + -45)) 0) with (Zpos p + 45)
          by (rewrite <- (Pos2Z.opp_pos p); lia).
        replace (Z.neg p + -45 + (Zpos p + 45)) with 0
          by (rewrite <- (Pos2Z.opp_pos p); lia).
        rewrite Z.pow_0_r, Z.mul_1_r, Pos2Z.inj_mul, Z.pow_add_r by lia.
        change (2 ^ 45) with 35184372088832.
        change (Zpos 8972014882652160) with (255 * 35184372088832). nia.
      * exists a. split; [exact Ea|]. split; [exact Hb|].
        revert Hf.
        replace (Z.max (- (Z.neg p + -45)) 0) with (Zpos p + 45)
          by (rewrite <- (Pos2Z.opp_pos p); lia).
        replace (Z.neg p + -45 + (Zpos p + 45)) with 0
          by (rewrite <- (Pos2Z.opp_pos p); lia).
        rewrite Z.pow_0_r, Z.mul_1_r, Pos2Z.inj_mul, Z.pow_add_r by lia.
        change (2 ^ 45) with 35184372088832.
        change (Zpos 8972014882652160) with (255 * 35184372088832).
        rewrite Z.mul_assoc.
        pose proof (pow2_pos (Zpos p) ltac:(lia)) as Hp.
        rewrite Z.div_mul_cancel_r by lia.
        assert (Qfloor (B64.to_Q (S754_finite false m (Z.neg p)) * 255)
                = Zpos m * 255 / 2 ^ Zpos p) as ->; [|intros Hf; exact Hf].
        cbn [B64.to_Q]. unfold Qfloor, Qmult. cbn [Qnum Qden].
        rewrite Pos.mul_1_r, Pos2Z.inj_pow. reflexivity.
Qed.

(** *** The alpha, in exact arithmetic and in binary64 *)

(** In exact arithmetic, for an opacity in [0, 1]: the alpha is the floor
    of [opacity * 255], which is [round(opacity * 255)] or one less. *)
Lemma icon_alpha_exact (x y size : Q) (icon_type : string) (color : Color)
    (opacity : Q) :
  (0 <= opacity <= 1)%Q ->
  let alpha := Qfloor (opacity * 255) in
  icon_alpha opacity = Return alpha
  /\ Forall (fun c => call_color c = color ++ [alpha])
            (icon_calls x y size icon_type color opacity)
  /\ 0 <= alpha <= 255
  /\ (inject_Z alpha <= opacity * 255 < inject_Z alpha + 1)%Q
  /\ Q_round (opacity * 255) - 1 <= alpha <= Q_round (opacity * 255).
Proof.
  intros [H0 H1] alpha.
  pose proof (icon_alpha_floor opacity H0) as E. fold alpha in E.
  split; [exact E|]. split; [apply icon_calls_color, E|].
  pose proof (Qfloor_le (opacity * 255)) as Hle.
  pose proof (Qlt_floor (opacity * 255)) as Hlt.
  pose proof (Q_round_floor (opacity * 255)) as Hr.
  fold alpha in Hle, Hlt, Hr.
  assert (0 <= alpha <= 255) as Hb.
  { pose proof (Qfloor_resp_le (inject_Z 0) (opacity * 255)) as Hlo.
    pose proof (Qfloor_resp_le (opacity * 255) (inject_Z 255)) as Hhi.
    rewrite Qfloor_Z in Hlo. rewrite Qfloor_Z in Hhi.
    clear Hle Hlt. split; [apply Hlo | apply Hhi]; unfold inject_Z; lra. }
  repeat split; try lia; try assumption.
  rewrite inject_Z_plus in Hlt. exact Hlt.
Qed.

(** The opacities 0.10 and 0.15, in binary64 as the script computes them
    and in exact arithmetic: 25 and 38. *)
Lemma icon_alpha_examples :
  icon_alpha (N := b64) (of_lit 0.10) = Return 25
  /\ icon_alpha (N := b64) (of_lit 0.15) = Return 38
  /\ icon_alpha (N := Q) 0.10%Q = Return 25
  /\ icon_alpha (N := Q) 0.15%Q = Return 38.
Proof. vm_compute. repeat split. Qed.

(** C4, as amended.  In binary64, which is what the script computes in,
    for every opacity in [0, 1]: the alpha that [draw_icon] appends to the
    base colour of every call is [int(opacity * 255)], the product rounded
    to the nearest binary64 and then cut to its integer part.  It lies in
    [0, 255], and is the floor of the exact product or one more (one more
    when the product rounds up to an integer: the opacity 0.6 gives 153,
    the exact product being just under 153).  The opacity 0.10 gives 25
    and 0.15 gives 38. *)
Theorem icon_alpha_truncates (x y size : b64) (icon_type : string)
    (color : Color) (opacity : b64) :
  B64.is_finite opacity = true ->
  (0 <= B64.to_Q opacity <= 1)%Q ->
  (exists alpha,
     icon_alpha opacity = Return alpha
     /\ Forall (fun c => call_color c = color ++ [alpha])
               (icon_calls x y size icon_type color opacity)
     /\ 0 <= alpha <= 255
     /\ Qfloor (B64.to_Q opacity * 255) <= alpha
        <= Qfloor (B64.to_Q opacity * 255) + 1)
  /\ icon_alpha (N := b64) (of_lit 0.10) = Return 25
  /\ icon_alpha (N := b64) (of_lit 0.15) = Return 38
  /\ icon_alpha (N := b64) (of_lit 0.6) = Return 153
  /\ Qfloor (B64.to_Q (of_lit 0.6) * 255) = 152.
Proof.
  intros Hfin Hq. split.
  - destruct (icon_alpha_b64 opacity Hfin Hq) as (alpha & Ea & Hb & Hf).
    exists alpha. split; [exact Ea|]. split; [apply icon_calls_color, Ea|].
    split; [exact Hb | exact Hf].
  - vm_compute. repeat split.
Qed.

Lemma icon_alpha_truncates_witness :
  (exists alpha,
     icon_alpha (N := b64) (of_lit 0.10) = Return alpha
     /\ Forall (fun c => call_color c = [244; 114; 182] ++ [alpha])
               (icon_calls (N := b64) (of_int 950) (of_int 120) (of_int 56)
                           "wave" [244; 114; 182] (of_lit 0.10))
     /\ 0 <= alpha <= 255
     /\ Qfloor (B64.to_Q (of_lit 0.10) * 255) <= alpha
        <= Qfloor (B64.to_Q (of_lit 0.10) * 255) + 1)
  /\ icon_alpha (N := b64) (of_lit 0.10) = Return 25
  /\ icon_alpha (N := b64) (of_lit 0.15) = Return 38
  /\ icon_alpha (N := b64) (of_lit 0.6) = Return 153
  /\ Qfloor (B64.to_Q (of_lit 0.6) * 255) = 152.
Proof.
  apply (icon_alpha_truncates (of_int 950) (of_int 120) (of_int 56) "wave"
           [244; 114; 182] (of_lit 0.10)).
  - vm_compute. reflexivity.
  - split; vm_compute; discriminate.
Defined.

(** C4, as stated, fails at opacity 0.10: [0.10 * 255] is 25.5 (in
    binary64 too), [round] gives 26 and [int] gives 25. *)
Lemma icon_alpha_is_not_rounded :
  (B64.to_Q (of_lit 0.10 * of_int 255)%py == 51 # 2)%Q
  /\ Q_round (51 # 2) = 26
  /\ icon_alpha (N := b64) (of_lit 0.10) = Return 25
  /\ ~ (forall opacity : Q,
          (0 <= opacity <= 1)%Q ->
          icon_alpha opacity = Return (Q_round (opacity * 255))).
Proof.
  split; [vm_compute; reflexivity|].
  split; [vm_compute; reflexivity|].
  split; [vm_compute; reflexivity|].
  intros Hc. specialize (Hc 0.10%Q). vm_compute in Hc.
  assert (Return 25 = Return 26) as E by (apply Hc; split; discriminate).
  discriminate E.
Qed.

(** *** The square of an icon *)

Lemma wave_points_Q (x y s : Q) :
  wave_points x y s
  = [ (x + 16 * s, y + 24 * s); (x + 20 * s, y + 24 * s);
      (x + 24 * s, y + 40 * s); (x + 28 * s, y + 40 * s);
      (x + 32 * s, y + 24 * s); (x + 36 * s, y + 24 * s);
      (x + 40 * s, y + 40 * s); (x + 44 * s, y + 40 * s);
      (x + 48 * s, y + 24 * s) ]%Q.
Proof. unfold wave_points. rewrite range3_wave. reflexivity. Qed.














(** Why the general statement is one of exact arithmetic: binary64
    rounds.  At the anchor 0.1 the wave of size 2 ends at [0.1 + 1.5],
    which rounds above, and a stroke that reaches half a pixel from there
    ends right of the square. *)
Lemma binary64_rounding_leaves_the_square :
  reach_in_squareb (B64.to_Q (of_lit 0.1)) (B64.to_Q (of_lit 0.1)) 2
    (map call_to_Q
         (icon_calls (N := b64) (of_lit 0.1) (of_lit 0.1) (of_int 2) "wave"
                     [244; 114; 182] (of_lit 0.10))) = false.
Proof. vm_compute. reflexivity. Qed.

(** *** The icons of the script, in binary64 *)

(** On the eight icons that [generate_banner] places binary64 computes
    every coordinate without rounding: the calls are those of exact
    arithmetic. *)
Lemma placed_icons_exact :
  forallb (fun '(x, y, size, icon, color, opacity) =>
             calls_eqb
               (map call_to_Q
                    (icon_calls (N := b64) (of_int x) (of_int y) (of_int size)
                                icon color (of_lit opacity)))
               (icon_calls (N := Q) (of_int x) (of_int y) (of_int size)
                           icon color (of_lit opacity)))
          icon_positions = true.
Proof. vm_compute. reflexivity. Qed.

Ltac py_unfold :=
  unfold generate_banner, paint_background, draw_texts, save_banner,
    place_logo, load_fonts, draw_gradient, call_draw_icon, Image_new, Image_convert,
    Image_resize, Image_copy, Image_filter_GaussianBlur, Image_alpha_composite,
    Image_paste, ImageDraw_Draw, draw_call, ImageFont_load_default, Image_save,
    py_truediv, py_int.

(** ** The run of [generate_banner] *)

(** *** The [random] module *)

Section SeedBlind.

Lemma seed_blind_ret {A} (a : A) : seed_blind (mret a).
Proof. intros w g. reflexivity. Qed.

Lemma seed_blind_raise {A} (e : Exn) : seed_blind (@raise A e).
Proof. intros w g. reflexivity. Qed.

Lemma seed_blind_bind {A B} (m : Py A) (k : A -> Py B) :
  seed_blind m -> (forall a, seed_blind (k a)) -> seed_blind (m ≫= k).
Proof.
  intros Hm Hk w g. unfold mbind, Py_bind, bind. rewrite Hm.
  destruct (m w) as [[a | e] w']; cbn [fst snd]; [apply Hk | reflexivity].
Qed.

Lemma seed_blind_try {A} (body : Py A) (handler : Exn -> Py A) :
  seed_blind body -> (forall e, seed_blind (handler e)) ->
  seed_blind (try_except body handler).
Proof.
  intros Hb Hh w g. unfold try_except. rewrite Hb.
  destruct (body w) as [[a | e] w']; cbn [fst snd]; [reflexivity | apply Hh].
Qed.

Lemma seed_blind_for_each {A} (l : list A) (body : A -> Py unit) :
  (forall a, seed_blind (body a)) -> seed_blind (for_each l body).
Proof.
  intros Hb. induction l as [|a l IH]; cbn [for_each].
  - apply seed_blind_ret.
  - apply seed_blind_bind; [apply Hb | intros _; exact IH].
Qed.

Lemma seed_blind_lift {A} (o : Outcome A) : seed_blind (lift o).
Proof. intros w g. reflexivity. Qed.

Lemma seed_blind_alloc v : seed_blind (alloc v).
Proof. intros w g. reflexivity. Qed.

Lemma seed_blind_deref r : seed_blind (deref r).
Proof. intros w g. reflexivity. Qed.

Lemma seed_blind_assign r v : seed_blind (assign r v).
Proof. intros w g. reflexivity. Qed.

Lemma seed_blind_print s : seed_blind (print s).
Proof. intros w g. reflexivity. Qed.

Lemma seed_blind_write_file path f : seed_blind (write_file path f).
Proof.
  intros w g. unfold write_file. cbn [files set_random_state].
  destruct (static_writable (files w)); reflexivity.
Qed.

Lemma seed_blind_Image_open path : seed_blind (Image_open path).
Proof.
  intros w g. unfold Image_open. cbn [files set_random_state].
  destruct (String.eqb path logo_path); [|reflexivity].
  destruct (logo_png (files w)); reflexivity.
Qed.

Lemma seed_blind_ImageFont_truetype path size :
  seed_blind (ImageFont_truetype path size).
Proof.
  intros w g. unfold ImageFont_truetype. cbn [files set_random_state].
  destruct (if String.eqb path bold_path then _ else _); reflexivity.
Qed.

End SeedBlind.

Ltac seed_blind_walk :=
  repeat match goal with
         | |- forall _, _ => intro
         | |- seed_blind (for_each _ _) => apply seed_blind_for_each
         | |- seed_blind (try_except _ _) => apply seed_blind_try
         | |- seed_blind (_ ≫= _) => apply seed_blind_bind
         | |- seed_blind (match ?p with _ => _ end) => destruct p
         | |- seed_blind (mret _) => apply seed_blind_ret
         | |- seed_blind (ret _) => apply seed_blind_ret
         | |- seed_blind (raise _) => apply seed_blind_raise
         | |- seed_blind (lift _) => apply seed_blind_lift
         | |- seed_blind (alloc _) => apply seed_blind_alloc
         | |- seed_blind (deref _) => apply seed_blind_deref
         | |- seed_blind (assign _ _) => apply seed_blind_assign
         | |- seed_blind (print _) => apply seed_blind_print
         | |- seed_blind (write_file _ _) => apply seed_blind_write_file
         | |- seed_blind (Image_open _) => apply seed_blind_Image_open
         | |- seed_blind (ImageFont_truetype _ _) =>
             apply seed_blind_ImageFont_truetype
         end.

(** What the property excludes: a draw and a seeding both show in the
    state, and a draw in its result too. *)
Lemma random_is_not_seed_blind :
  ~ seed_blind (random_randint 0 9) /\ ~ seed_blind (random_seed 0).
Proof.
  split; intros H.
  - specialize (H (initial_world bare_files 0) 1). vm_compute in H.
    discriminate H.
  - specialize (H (initial_world bare_files 0) 1). vm_compute in H.
    discriminate H.
Qed.

(** The script, part by part, calls no function of [random]. *)
Lemma generate_banner_seed_blind : seed_blind generate_banner.
Proof. py_unfold. seed_blind_walk. Qed.

(** C2.  Two runs on the same files give the same outcome, the same
    images and written file and the same output, whatever the state of the
    [random] module; the run leaves that state as it found it, no number
    having been drawn.  What is shown is that nothing the script does
    depends on the import of line 9; that a Pillow call gives the same
    image for the same arguments is how the calls are modelled. *)
Theorem generate_banner_deterministic (fs : FileSystem) (seed1 seed2 : Z) :
  let run1 := generate_banner (initial_world fs seed1) in
  let run2 := generate_banner (initial_world fs seed2) in
  fst run1 = fst run2
  /\ written (snd run1) = written (snd run2)
  /\ heap (snd run1) = heap (snd run2)
  /\ stdout (snd run1) = stdout (snd run2)
  /\ random_state (snd run1) = seed1.
Proof.
  cbv zeta.
  assert (forall g, generate_banner (initial_world fs g)
                    = (fst (generate_banner (initial_world fs seed1)),
                       set_random_state g
                         (snd (generate_banner (initial_world fs seed1))))) as Hs.
  { intros g. exact (generate_banner_seed_blind (initial_world fs seed1) g). }
  rewrite (Hs seed2).
  pose proof (Hs seed1) as H1. revert H1.
  generalize (generate_banner (initial_world fs seed1)). intros [o w] H1.
  cbn [fst snd] in *. injection H1 as H1.
  repeat split. rewrite H1. reflexivity.
Qed.

(** *** Files and exceptions *)

Section Quiet.

Lemma quiet_ret {A} (a : A) : quiet (mret a).
Proof. intros w. split; reflexivity. Qed.

Lemma quiet_raise {A} (e : Exn) : quiet (@raise A e).
Proof. intros w. split; reflexivity. Qed.

Lemma quiet_bind {A B} (m : Py A) (k : A -> Py B) :
  quiet m -> (forall a, quiet (k a)) -> quiet (m ≫= k).
Proof.
  intros Hm Hk w. unfold mbind, Py_bind, bind.
  specialize (Hm w). destruct (m w) as [[a | e] w']; cbn [fst snd] in *.
  - specialize (Hk a w'). destruct Hk as [-> ->]. exact Hm.
  - exact Hm.
Qed.

Lemma quiet_try {A} (body : Py A) (handler : Exn -> Py A) :
  quiet body -> (forall e, quiet (handler e)) -> quiet (try_except body handler).
Proof.
  intros Hb Hh w. unfold try_except.
  specialize (Hb w). destruct (body w) as [[a | e] w']; cbn [fst snd] in *.
  - exact Hb.
  - specialize (Hh e w'). destruct Hh as [-> ->]. exact Hb.
Qed.

Lemma quiet_for_each {A} (l : list A) (body : A -> Py unit) :
  (forall a, quiet (body a)) -> quiet (for_each l body).
Proof.
  intros Hb. induction l as [|a l IH]; cbn [for_each].
  - apply quiet_ret.
  - apply quiet_bind; [apply Hb | intros _; exact IH].
Qed.

Lemma quiet_lift {A} (o : Outcome A) : quiet (lift o).
Proof. intros w. split; reflexivity. Qed.

Lemma quiet_alloc v : quiet (alloc v).
Proof. intros w. split; reflexivity. Qed.

Lemma quiet_deref r : quiet (deref r).
Proof. intros w. split; reflexivity. Qed.

Lemma quiet_assign r v : quiet (assign r v).
Proof. intros w. split; reflexivity. Qed.

Lemma quiet_print s : quiet (print s).
Proof. intros w. split; reflexivity. Qed.

Lemma quiet_Image_open path : quiet (Image_open path).
Proof.
  intros w. unfold Image_open.
  destruct (String.eqb path logo_path); [|split; reflexivity].
  destruct (logo_png (files w)); split; reflexivity.
Qed.

Lemma quiet_ImageFont_truetype path size : quiet (ImageFont_truetype path size).
Proof.
  intros w. unfold ImageFont_truetype.
  destruct (if String.eqb path bold_path then _ else _); split; reflexivity.
Qed.

End Quiet.

Ltac quiet_walk :=
  repeat match goal with
         | |- forall _, _ => intro
         | |- quiet (for_each _ _) => apply quiet_for_each
         | |- quiet (try_except _ _) => apply quiet_try
         | |- quiet (_ ≫= _) => apply quiet_bind
         | |- quiet (match ?p with _ => _ end) => destruct p
         | |- quiet (mret _) => apply quiet_ret
         | |- quiet (ret _) => apply quiet_ret
         | |- quiet (raise _) => apply quiet_raise
         | |- quiet (lift _) => apply quiet_lift
         | |- quiet (alloc _) => apply quiet_alloc
         | |- quiet (deref _) => apply quiet_deref
         | |- quiet (assign _ _) => apply quiet_assign
         | |- quiet (print _) => apply quiet_print
         | |- quiet (Image_open _) => apply quiet_Image_open
         | |- quiet (ImageFont_truetype _ _) => apply quiet_ImageFont_truetype
         end.

Section Total.

Lemma total_ret {A} (a : A) : total (mret a).
Proof. intros w. exists a. reflexivity. Qed.

Lemma total_bind {A B} (m : Py A) (k : A -> Py B) :
  total m -> (forall a, total (k a)) -> total (m ≫= k).
Proof.
  intros Hm Hk w. unfold mbind, Py_bind, bind.
  destruct (Hm w) as [a Ha]. destruct (m w) as [[a' | e] w']; cbn [fst] in Ha.
  - apply Hk.
  - discriminate Ha.
Qed.

(** A handler that cannot raise makes the whole statement safe, whatever
    the body does. *)
Lemma total_try {A} (body : Py A) (handler : Exn -> Py A) :
  (forall e, total (handler e)) -> total (try_except body handler).
Proof.
  intros Hh w. unfold try_except.
  destruct (body w) as [[a | e] w'].
  - exists a. reflexivity.
  - apply Hh.
Qed.

Lemma total_for_each {A} (l : list A) (body : A -> Py unit) :
  (forall a, total (body a)) -> total (for_each l body).
Proof.
  intros Hb. induction l as [|a l IH]; cbn [for_each].
  - apply total_ret.
  - apply total_bind; [apply Hb | intros _; exact IH].
Qed.

Lemma total_alloc v : total (alloc v).
Proof. intros w. eexists. reflexivity. Qed.

Lemma total_deref r : total (deref r).
Proof. intros w. eexists. reflexivity. Qed.

Lemma total_assign r v : total (assign r v).
Proof. intros w. eexists. reflexivity. Qed.

Lemma total_print s : total (print s).
Proof. intros w. eexists. reflexivity. Qed.

End Total.

Ltac total_walk :=
  repeat match goal with
         | |- forall _, _ => intro
         | |- total (for_each _ _) => apply total_for_each
         | |- total (try_except _ _) => apply total_try
         | |- total (_ ≫= _) => apply total_bind
         | |- total (match ?p with (_, _) => _ end) => destruct p
         | |- total (mret _) => apply total_ret
         | |- total (ret _) => apply total_ret
         | |- total (alloc _) => apply total_alloc
         | |- total (deref _) => apply total_deref
         | |- total (assign _ _) => apply total_assign
         | |- total (print _) => apply total_print
         end.

(** The first half of C5: no exception leaves the logo step, whatever the
    logo file and the fonts are. *)
Lemma place_logo_never_raises (img : ref) (draw : Draw) :
  total (place_logo img draw).
Proof. py_unfold. total_walk. Qed.

Lemma load_fonts_never_raises : total load_fonts.
Proof. py_unfold. total_walk. Qed.

Lemma draw_texts_never_raises (img : ref) : total (draw_texts img).
Proof. py_unfold. total_walk. Qed.

Lemma paint_background_quiet : quiet paint_background.
Proof. py_unfold. quiet_walk. Qed.

Lemma place_logo_quiet (img : ref) (draw : Draw) : quiet (place_logo img draw).
Proof. py_unfold. quiet_walk. Qed.

Lemma draw_texts_quiet (img : ref) : quiet (draw_texts img).
Proof. py_unfold. quiet_walk. Qed.

(** *** The written image *)

(** What [paint_background] returns: [img] is the third object, the
    composite; [draw] still points at the first. *)
Lemma paint_background_returns (fs : FileSystem) (seed : Z) :
  fst (paint_background (initial_world fs seed)) = Return (2%nat, 0%nat).
Proof. vm_compute. reflexivity. Qed.

(** Lines 174-180 on any world: the saved image is a new RGB image of
    1200 by 630 in the background colour with [img] pasted over it. *)
Lemma save_banner_written (img : ref) (w : World) :
  exists v,
    written (snd (save_banner img w))
    = written w ++
        (if static_writable (files w)
         then [(output_path,
                {| saved_image := Pasted (New RGB (width, height) [15; 23; 42])
                                         v (0, 0) v;
                   saved_format := "JPEG";
                   saved_quality := 95;
                   saved_optimize := true |})]
         else []).
Proof.
  exists ((heap w ++ [New RGB (width, height) [15; 23; 42]]) !!! img).
  unfold save_banner, Image_new, Image_paste, Image_save, alloc, deref, assign,
    write_file, print, mbind, Py_bind, bind.
  cbn [heap set_heap files written stdout random_state fst snd].
  destruct (static_writable (files w)).
  - cbn [written set_written set_stdout snd].
    rewrite list_lookup_total_insert_eq by (rewrite length_app; cbn; lia).
    rewrite (list_lookup_total_middle (heap w) []) by reflexivity.
    reflexivity.
  - cbn [written raise snd set_heap]. rewrite app_nil_r. reflexivity.
Qed.

(** C6.  In every run (the logo decoded, replaced by the fallback, or
    left out; the fonts found or not) the image written, if the
    directory takes it, is 1200 by 630 and of mode RGB, which has no
    alpha channel: a new image in the colour (15, 23, 42) over which the
    composed image was pasted.  Nothing else is written. *)
Theorem written_banner_is_1200x630_opaque (fs : FileSystem) (seed : Z) :
  exists v,
    let banner := Pasted (New RGB (1200, 630) [15; 23; 42]) v (0, 0) v in
    written (snd (generate_banner (initial_world fs seed)))
    = (if static_writable fs
       then [(output_path,
              {| saved_image := banner; saved_format := "JPEG";
                 saved_quality := 95; saved_optimize := true |})]
       else [])
    /\ image_size banner = (1200, 630)
    /\ image_mode banner = RGB.
Proof.
  unfold generate_banner, mbind, Py_bind, bind.
  pose proof (paint_background_returns fs seed) as Hr.
  pose proof (paint_background_quiet (initial_world fs seed)) as [Hf Hw].
  destruct (paint_background (initial_world fs seed)) as [o w1].
  cbn [fst snd files written initial_world] in *. subst o.
  pose proof (place_logo_never_raises 2%nat 0%nat w1) as [[] Hl].
  pose proof (place_logo_quiet 2%nat 0%nat w1) as [Hf2 Hw2].
  destruct (place_logo 2%nat 0%nat w1) as [o w2].
  cbn [fst snd] in *. subst o.
  pose proof (draw_texts_never_raises 2%nat w2) as [[] Ht].
  pose proof (draw_texts_quiet 2%nat w2) as [Hf3 Hw3].
  destruct (draw_texts 2%nat w2) as [o w3].
  cbn [fst snd] in *. subst o.
  destruct (save_banner_written 2%nat w3) as [v Hv].
  exists v. cbv zeta. rewrite Hv, Hw3, Hw2, Hw, Hf3, Hf2, Hf.
  repeat split.
Qed.

(** *** The fallback mark *)

(** C5, at the failing input.  With the logo missing and the bold font
    present the run returns normally and the fallback does call
    [draw.text((100, 250), 'JW', ...)]: it is the last call on object 0,
    the image [draw] was made for.  The banner is built from object 2, the
    composite, on which only the three lines of text were drawn: the
    written image shows the name and no 'JW'. *)
Theorem fallback_mark_misses_banner (seed : Z) :
  let run := generate_banner (initial_world no_logo_files seed) in
  fst run = Return tt
  /\ last (calls_on (heap (snd run) !!! 0%nat)) = Some JW_call
  /\ map (is_text_of "JW") (calls_on (heap (snd run) !!! 2%nat))
     = [false; false; false]
  /\ map (fun '(path, f) =>
            (path,
             shows_text "Josh Wentworth" (saved_image f),
             shows_text "JW" (saved_image f)))
         (written (snd run))
     = [(output_path, true, false)].
Proof. vm_compute. repeat split. Qed.

(** The rest of C5 holds: without the fallback font the mark is passed
    over, the only trace being the warning about the logo, and the banner
    is written all the same. *)
Lemma fallback_without_font (seed : Z) :
  let run := generate_banner (initial_world bare_files seed) in
  fst run = Return tt
  /\ stdout (snd run)
     = ["Warning: Could not load logo: [Errno 2] No such file or directory: 'docs/brand/Logo.png'";
        "✓ Generated banner: web/static/banner.jpg";
        "  Size: 1200x630";
        "  Features: Logo, gradient overlay, floating tech icons"]
  /\ existsb (is_text_of "JW") (calls_on (heap (snd run) !!! 0%nat)) = false
  /\ map fst (written (snd run)) = [output_path].
Proof. vm_compute. repeat split. Qed.

(** The icons share the fate of the fallback mark: their 47 calls land
    on object 0 as well. *)
Lemma icons_miss_banner (seed : Z) :
  let run := generate_banner (initial_world no_logo_files seed) in
  length (calls_on (heap (snd run) !!! 0%nat)) = 48%nat
  /\ length (calls_on (heap (snd run) !!! 2%nat)) = 3%nat.
Proof. vm_compute. split; reflexivity. Qed.

(* ================================================================== *)
(** * Further properties *)

(** ** [draw_icon]: geometry *)

Ltac icon_cases icon_type :=
  destruct (String.eqb icon_type "chip");
    [|destruct (String.eqb icon_type "terminal");
      [|destruct (String.eqb icon_type "wave");
        [|destruct (String.eqb icon_type "resistor")]]].

(** Splits a computed comparison of calls into its equations. *)
Ltac eqb_goal :=
  repeat match goal with
         | |- (_ && _)%bool = true => apply andb_true_intro; split
         | |- point_eqb _ _ = true =>
             unfold point_eqb, shift_point, scale_point; cbn [fst snd]
         | |- Qeq_bool _ _ = true => apply Qeq_bool_iff
         | |- bool_decide _ = true => apply bool_decide_eq_true_2; reflexivity
         | |- Z.eqb _ _ = true => apply Z.eqb_refl
         | |- true = true => reflexivity
         end.

Ltac wave_is_drawn :=
  repeat match goal with
         | |- context [1 <? Z.of_nat (length ?l)] =>
             change (1 <? Z.of_nat (length l)) with true
         end.

(** X1.  Moving the anchor by [(dx, dy)] moves every point of every call
    by [(dx, dy)] and changes nothing else: the calls, their order, their
    colours, widths and joints are the same. *)
Theorem draw_icon_translates (x y dx dy size : Q) (icon_type : string)
    (color : Color) (opacity : Q) :
  calls_eqb (icon_calls (x + dx)%Q (y + dy)%Q size icon_type color opacity)
            (map (map_points (shift_point dx dy))
                 (icon_calls x y size icon_type color opacity)) = true.
Proof.
  unfold icon_calls, draw_icon. rewrite !wave_points_Q.
  cbn [to_int ndiv nadd nmul of_int Q_PyNum].
  generalize (Q_trunc (opacity * inject_Z 255)). intros alpha.
  generalize (size / inject_Z 64)%Q. intros s.
  run_drawing. cbn [to_int nmul of_int Q_PyNum].
  fold (stroke_width_Q s). fold (band_width_Q s).
  generalize (stroke_width_Q s) (band_width_Q s). intros w1 w2.
  icon_cases icon_type.
  all: wave_is_drawn.
  all: cbv beta iota zeta delta [fst snd app].
  all: cbn [map map_points shift_point calls_eqb call_eqb points_eqb point_eqb
            joint_eqb fst snd String.eqb Ascii.eqb Bool.eqb].
  all: eqb_goal.
  all: try ring.
Qed.

(** X2.  The points of an icon are those of the icon of size 64 at the
    origin, scaled by [size / 64] and moved to the anchor: the glyph is
    one design on a grid of 64 units, whatever the size (zero and negative
    sizes included). *)
Theorem draw_icon_scales (x y size : Q) (icon_type : string)
    (color : Color) (opacity : Q) :
  Forall2 (fun c c0 =>
             points_eqb (call_points c)
                        (map (scale_point x y (size / 64)) (call_points c0))
             = true)
          (icon_calls x y size icon_type color opacity)
          (icon_calls 0%Q 0%Q 64%Q icon_type color opacity).
Proof.
  unfold icon_calls, draw_icon. rewrite !wave_points_Q.
  cbn [to_int ndiv nadd nmul of_int Q_PyNum].
  generalize (Q_trunc (opacity * inject_Z 255)). intros alpha.
  change (inject_Z 64) with 64%Q.
  generalize (size / 64)%Q. intros s.
  run_drawing. cbn [to_int nmul of_int Q_PyNum].
  generalize (Q_trunc (inject_Z 2 * s)) (Q_trunc s)
             (Q_trunc (inject_Z 2 * (64 / 64))) (Q_trunc (64 / 64)).
  intros w1 w2 w3 w4.
  icon_cases icon_type.
  all: wave_is_drawn.
  all: cbv beta iota zeta delta [fst snd app].
  all: repeat constructor.
  all: cbn [map call_points scale_point points_eqb point_eqb fst snd].
  all: eqb_goal.
  all: unfold inject_Z; field.
Qed.

(** ** [draw_icon]: exceptions *)

Lemma b64_double_finite (s : b64) :
  B64.is_finite (B64.mul (B64.of_Z 2) s) = true -> B64.is_finite s = true.
Proof.
  destruct s as [sg | sg | | sg m e]; try reflexivity.
  - destruct sg; vm_compute; intros E; exact E.
  - vm_compute. intros E; exact E.
Qed.

Lemma b64_to_int_finite (f : b64) :
  B64.is_finite f = true -> B64.to_int f = Return (B64.trunc f).
Proof. destruct f; intros E; try discriminate E; reflexivity. Qed.

Lemma b64_to_int_not_finite (f : b64) :
  B64.is_finite f = false -> exists e, B64.to_int f = Raise e.
Proof. destruct f; intros E; try discriminate E; eexists; reflexivity. Qed.

(** X3.  In binary64, a failure of [int()] never leaves an icon half
    drawn.  When [int()] refuses [opacity * 255] (an infinity or a NaN),
    or, for one of the four types, refuses [2 * s], [draw_icon] raises
    and has made no draw call: the alpha is computed first, and the width
    of the first outline before the outline is drawn.  And once [int()]
    has taken [2 * s] it takes [s]: the width of the bands of the
    resistor cannot fail after the body is drawn. *)
Theorem int_failure_draws_nothing (x y size : b64) (icon_type : string)
    (color : Color) (opacity : b64) :
  let run := draw_icon x y size icon_type color opacity in
  (B64.is_finite (opacity * of_int 255)%py
   && (negb (known_icon icon_type)
       || B64.is_finite (of_int 2 * (size / of_int 64))%py) = false ->
   (exists e, fst run = Raise e) /\ snd run = [])
  /\ (B64.is_finite (of_int 2 * (size / of_int 64))%py = true ->
      exists k, to_int (size / of_int 64)%py = Return k).
Proof.
  cbv zeta. split;
    [|intros E2; eexists; apply b64_to_int_finite, b64_double_finite, E2].
  unfold draw_icon, known_icon, icon_types.
  rewrite wave_points_length. cbn [existsb].
  generalize (size / of_int 64)%py as s. intros s.
  run_drawing. cbn [to_int b64_PyNum of_int nmul] in *.
  destruct (B64.is_finite (B64.mul opacity (B64.of_Z 255))) eqn:Ho;
    [apply b64_to_int_finite in Ho | apply b64_to_int_not_finite in Ho as [e Ho]];
    rewrite Ho; cbn [andb];
    [|intros _; split; [eexists|]; reflexivity].
  icon_cases icon_type.
  all: cbn [orb negb].
  all: try (intros E; discriminate E).
  all: intros E2; apply b64_to_int_not_finite in E2 as [e2 E2]; rewrite E2;
       split; [eexists|]; reflexivity.
Qed.

(** A chip of infinite size. *)
Lemma int_failure_draws_nothing_witness :
  (exists e, fst (draw_icon (N := b64) (of_int 80) (of_int 80)
                            (S754_infinity false) "chip" [102; 126; 234]
                            (of_lit 0.08)) = Raise e)
  /\ snd (draw_icon (N := b64) (of_int 80) (of_int 80) (S754_infinity false)
                    "chip" [102; 126; 234] (of_lit 0.08)) = [].
Proof.
  apply (proj1 (int_failure_draws_nothing (of_int 80) (of_int 80)
                  (S754_infinity false) "chip" [102; 126; 234] (of_lit 0.08))).
  vm_compute. reflexivity.
Defined.

(** ** [draw_icon]: the range of its arguments *)

(** [int()] of a rational against an integer bound. *)
Lemma Q_trunc_le_iff (q : Q) (k : Z) :
  0 <= k -> (Q_trunc q <= k <-> (q < inject_Z (k + 1))%Q).
Proof.
  intros Hk. destruct q as [n d]. unfold Q_trunc, Qlt. cbn [Qnum Qden inject_Z].
  pose proof (Z.quot_rem' n (Zpos d)) as E.
  destruct (Z.le_gt_cases 0 n) as [Hn | Hn].
  - pose proof (Z.rem_bound_pos n (Zpos d) Hn ltac:(lia)) as Hr. nia.
  - assert (n ÷ Zpos d <= 0) as Hq.
    { pose proof (Z.quot_pos (- n) (Zpos d) ltac:(lia) ltac:(lia)) as Hp.
      rewrite Z.quot_opp_l in Hp by lia. lia. }
    split; intros _; nia.
Qed.

Lemma Q_trunc_ge_iff (q : Q) (k : Z) :
  k <= 0 -> (k <= Q_trunc q <-> (inject_Z (k - 1) < q)%Q).
Proof.
  intros Hk. destruct q as [n d]. unfold Q_trunc, Qlt. cbn [Qnum Qden inject_Z].
  pose proof (Z.quot_rem' n (Zpos d)) as E.
  destruct (Z.le_gt_cases 0 n) as [Hn | Hn].
  - pose proof (Z.quot_pos n (Zpos d) Hn ltac:(lia)) as Hq.
    split; intros _; nia.
  - pose proof (Z.rem_bound_pos_neg n (Zpos d) ltac:(lia) ltac:(lia)) as Hr.
    revert E Hr. generalize (n ÷ Zpos d) (Z.rem n (Zpos d)). intros q r E Hr.
    subst n. split; intros H; [|apply Z.lt_succ_r]; nia.
Qed.

(** X4.  [draw_icon] does not clamp the opacity.  In exact arithmetic the
    alpha it appends is a value of 8 bits exactly when the opacity lies
    strictly between [-1/255] and [256/255]: [int()] rounds toward zero,
    so a little outside [0, 1] still passes; beyond, the alpha is
    negative or above 255. *)
Theorem icon_alpha_8bit_iff (opacity : Q) :
  (exists alpha, icon_alpha opacity = Return alpha /\ 0 <= alpha <= 255)
  <-> (- (1 # 255) < opacity < 256 # 255)%Q.
Proof.
  unfold icon_alpha. cbn [to_int nmul of_int Q_PyNum].
  pose proof (Q_trunc_le_iff (opacity * inject_Z 255) 255 ltac:(lia)) as Hhi.
  pose proof (Q_trunc_ge_iff (opacity * inject_Z 255) 0 ltac:(lia)) as Hlo.
  change (inject_Z (255 + 1)) with (256 # 1) in Hhi.
  change (inject_Z (0 - 1)) with (-1 # 1) in Hlo.
  change (inject_Z 255) with (255 # 1) in *.
  split.
  - intros (alpha & E & H0 & H1). injection E as <-.
    apply Hhi in H1. apply Hlo in H0. lra.
  - intros [H0 H1]. eexists. split; [reflexivity|].
    split; [apply Hlo | apply Hhi]; lra.
Qed.

(** X5.  For each of the four types every stroke is exactly one pixel
    wide if and only if the size is below 64: under that size the widths
    do not scale with the icon (the eight icons of the banner, of sizes 24
    to 56, are all drawn with strokes of one pixel). *)
Theorem icon_strokes_one_pixel_iff (x y size : Q) (icon_type : string)
    (color : Color) (opacity : Q) :
  In icon_type icon_types ->
  Forall (fun c => call_width c = 1)
         (icon_calls x y size icon_type color opacity)
  <-> (size < 64)%Q.
Proof.
  intros Hin.
  assert (size == 64 * (size / inject_Z 64))%Q as Es by (unfold inject_Z; field).
  assert (stroke_width_Q (size / inject_Z 64) = 1 <-> (size < 64)%Q) as Hs.
  { unfold stroke_width_Q.
    pose proof (Q_trunc_le_iff (inject_Z 2 * (size / inject_Z 64)) 1 ltac:(lia))
      as H1.
    change (inject_Z (1 + 1)) with (2 # 1) in H1.
    change (inject_Z 2) with (2 # 1) in H1.
    split; intros H.
    - assert (Q_trunc ((2 # 1) * (size / inject_Z 64)) <= 1) as H2
          by (unfold inject_Z in *; lia).
      apply H1 in H2. lra.
    - assert ((2 # 1) * (size / inject_Z 64) < 2 # 1)%Q as H2 by lra.
      apply H1 in H2. unfold inject_Z in *. lia. }
  assert ((size < 64)%Q -> band_width_Q (size / inject_Z 64) = 1) as Hb.
  { intros H. unfold band_width_Q.
    pose proof (Q_trunc_le_iff (size / inject_Z 64) 1 ltac:(lia)) as H1.
    change (inject_Z (1 + 1)) with (2 # 1) in H1.
    assert (size / inject_Z 64 < 2 # 1)%Q as H2 by lra.
    apply H1 in H2. lia. }
  clear Es. revert Hin Hs Hb.
  unfold icon_calls, draw_icon, icon_types. rewrite wave_points_Q.
  cbn [to_int ndiv nadd nmul of_int Q_PyNum].
  generalize (Q_trunc (opacity * inject_Z 255)). intros alpha.
  generalize (size / inject_Z 64)%Q. intros s.
  run_drawing. cbn [to_int nmul of_int Q_PyNum].
  fold (stroke_width_Q s). fold (band_width_Q s).
  generalize (stroke_width_Q s) (band_width_Q s). intros w1 w2 Hin Hs Hb.
  wave_is_drawn.
  assert (icon_type = "chip" \/ icon_type = "terminal" \/ icon_type = "wave"
          \/ icon_type = "resistor") as [-> | [-> | [-> | ->]]]
      by (simpl in Hin; intuition auto).
  all: cbn [String.eqb Ascii.eqb Bool.eqb].
  all: cbv beta iota zeta delta [fst snd app].
  all: split;
       [ intros H; apply List.Forall_inv in H; cbn [call_width] in H;
         apply Hs, H
       | intros H; pose proof (proj2 Hs H); pose proof (Hb H); subst w1 w2;
         repeat constructor ].
Qed.

Lemma icon_strokes_one_pixel_iff_witness :
  Forall (fun c => call_width c = 1)
         (icon_calls 950%Q 120%Q 56%Q "wave" [244; 114; 182] 0.10%Q)
  <-> (56 < 64)%Q.
Proof.
  apply (icon_strokes_one_pixel_iff 950 120 56 "wave" [244; 114; 182] 0.10%Q).
  simpl. auto.
Defined.

(** X6.  In exact arithmetic, for each of the four types the rectangles
    that [draw_icon] passes have their corners in order (the first above
    and to the left of the second) if and only if the size is not
    negative: a negative size hands [ImageDraw.rectangle] inverted
    corners. *)
Theorem icon_rectangles_ordered_iff (x y size : Q) (icon_type : string)
    (color : Color) (opacity : Q) :
  In icon_type icon_types ->
  Forall corners_ordered (icon_calls x y size icon_type color opacity)
  <-> (0 <= size)%Q.
Proof.
  intros Hin. revert Hin.
  unfold icon_calls, draw_icon, icon_types. rewrite wave_points_Q.
  cbn [to_int ndiv nadd nmul of_int Q_PyNum].
  generalize (Q_trunc (opacity * inject_Z 255)). intros alpha.
  set (s := (size / inject_Z 64)%Q).
  assert (size == 64 * s)%Q as Es by (unfold s, inject_Z; field).
  run_drawing. cbn [to_int nmul of_int Q_PyNum].
  generalize (Q_trunc (inject_Z 2 * s)) (Q_trunc s). intros w1 w2 Hin.
  wave_is_drawn.
  assert (icon_type = "chip" \/ icon_type = "terminal" \/ icon_type = "wave"
          \/ icon_type = "resistor") as [-> | [-> | [-> | ->]]]
      by (simpl in Hin; intuition auto).
  all: cbn [String.eqb Ascii.eqb Bool.eqb].
  all: cbv beta iota zeta delta [fst snd app].
  all: split;
       [ intros H; apply List.Forall_inv in H; cbn [corners_ordered fst snd] in H;
         destruct H as [H _]; revert H; unfold inject_Z; intros H; lra
       | intros H; repeat constructor; cbn [fst snd]; unfold inject_Z; lra ].
Qed.

Lemma icon_rectangles_ordered_iff_witness :
  Forall corners_ordered
         (icon_calls 1050%Q 500%Q 40%Q "resistor" [102; 126; 234] 0.09%Q)
  <-> (0 <= 40)%Q.
Proof.
  apply (icon_rectangles_ordered_iff 1050 500 40 "resistor" [102; 126; 234]
                                     0.09%Q).
  simpl. auto.
Defined.

(** ** The gradient: neighbouring columns, and any width *)

Lemma one_step_spec (c d : Color) :
  one_step c d = true -> Forall2 (fun x y => Z.abs (y - x) <= 1) c d.
Proof.
  revert d. induction c as [|x c IH]; intros [|y d] H; try discriminate H.
  - constructor.
  - cbn in H. apply andb_prop in H. destruct H as [H1 H2].
    constructor; [lia | apply IH, H2].
Qed.

Lemma gradient_steps_table :
  forallb (fun i => one_step_fills (gradient_fill (N := b64) width i)
                                   (gradient_fill (N := b64) width (i + 1)))
          (range (width - 1)) = true.
Proof. vm_compute. reflexivity. Qed.

(** X7.  The gradient has no visible step: from each column of the loop
    to the next, red, green, blue and alpha each change by one at most
    (in binary64, the switch of formula at the middle column and the three
    columns where rounding bites included). *)
Theorem gradient_is_smooth (i : Z) :
  0 <= i < width - 1 ->
  exists c d,
    gradient_fill (N := b64) width i = Return c
    /\ gradient_fill (N := b64) width (i + 1) = Return d
    /\ Forall2 (fun x y => Z.abs (y - x) <= 1) c d.
Proof.
  intros Hi.
  pose proof gradient_steps_table as Ht. rewrite forallb_forall in Ht.
  specialize (Ht i (proj2 (range_spec (width - 1) i) Hi)).
  destruct (gradient_fill (N := b64) width i) as [c | e]; [|discriminate Ht].
  destruct (gradient_fill (N := b64) width (i + 1)) as [d | e];
    [|discriminate Ht].
  exists c, d. repeat split. apply one_step_spec, Ht.
Qed.

Lemma gradient_is_smooth_witness :
  exists c d,
    gradient_fill (N := b64) width 599 = Return c
    /\ gradient_fill (N := b64) width (599 + 1) = Return d
    /\ Forall2 (fun x y => Z.abs (y - x) <= 1) c d.
Proof. apply (gradient_is_smooth 599). unfold width. lia. Defined.

Lemma Q_trunc_between (q : Q) (a b : Z) :
  0 <= a -> (inject_Z a <= q)%Q -> (q < inject_Z b + 1)%Q ->
  a <= Q_trunc q <= b.
Proof.
  intros Ha Hlo Hhi.
  assert (0 <= q)%Q as Hq.
  { apply Qle_trans with (inject_Z a); [|exact Hlo]. unfold Qle. cbn. lia. }
  rewrite Q_trunc_floor by exact Hq. split.
  - rewrite <- (Qfloor_Z a). apply Qfloor_resp_le, Hlo.
  - pose proof (Qfloor_le q) as Hf.
    assert (inject_Z (Qfloor q) < inject_Z (b + 1))%Q as Hlt.
    { rewrite inject_Z_plus. eapply Qle_lt_trans; eassumption. }
    rewrite <- Zlt_Qlt in Hlt. lia.
Qed.

Ltac channel_bounds :=
  apply Q_trunc_between;
  [ lia
  | change (inject_Z ?z) with (z # 1); lra
  | change (inject_Z ?z) with (z # 1); lra ].

(** X8.  The formulas of the loop body hold for any width: in exact
    arithmetic, for every width and every column [0 <= i < width], the
    fill is returned, each channel lies between the values of its stops
    (red in [14, 243]: the 244 of the pink stop is approached and never
    reached; green in [114, 165]; blue in [182, 234]) and alpha in
    [25, 35]. *)
Theorem gradient_fill_between_stops (w i : Z) :
  0 <= i < w ->
  exists r g b a,
    gradient_fill (N := Q) w i = Return [r; g; b; a]
    /\ 14 <= r <= 243 /\ 114 <= g <= 165 /\ 182 <= b <= 234
    /\ 25 <= a <= 35.
Proof.
  intros Hi. unfold gradient_fill, gradient_alpha.
  cbn [to_int ndiv nadd nsub nmul nabs nlt of_int of_lit Q_PyNum].
  assert (0 <= inject_Z i / inject_Z w < 1)%Q as Hr.
  { assert (0 < inject_Z w)%Q as Hw by (unfold Qlt; cbn; lia).
    split.
    - apply Qle_shift_div_l; [exact Hw|]. rewrite Qmult_0_l.
      unfold Qle; cbn; lia.
    - apply Qlt_shift_div_r; [exact Hw|]. rewrite Qmult_1_l.
      rewrite <- Zlt_Qlt. lia. }
  revert Hr. generalize (inject_Z i / inject_Z w)%Q. intros ratio [H0 H1].
  assert (0 <= Qabs (ratio - 0.5) <= 1 # 2)%Q as Ha.
  { split; [apply Qabs_nonneg|]. apply Qabs_Qle_condition. split; lra. }
  revert Ha. generalize (Qabs (ratio - 0.5)). intros u [Hu0 Hu1].
  change (inject_Z (14 - 102)) with (-88 # 1).
  change (inject_Z (165 - 126)) with (39 # 1).
  change (inject_Z (233 - 234)) with (-1 # 1).
  change (inject_Z (244 - 14)) with (230 # 1).
  change (inject_Z (114 - 165)) with (-51 # 1).
  change (inject_Z (182 - 233)) with (-51 # 1).
  change (inject_Z 2) with (2 # 1). change (inject_Z 10) with (10 # 1).
  destruct (Qle_bool 0.5 ratio) eqn:Hh; cbn [negb].
  - apply Qle_bool_iff in Hh.
    cbn [mbind mret Outcome_bind Outcome_ret].
    do 4 eexists. split; [reflexivity|].
    split; [channel_bounds|]. split; [channel_bounds|].
    split; channel_bounds.
  - assert (ratio < 0.5)%Q as Hl.
    { apply Qnot_le_lt. intros Hc. apply Qle_bool_iff in Hc. congruence. }
    cbn [mbind mret Outcome_bind Outcome_ret].
    do 4 eexists. split; [reflexivity|].
    split; [channel_bounds|]. split; [channel_bounds|].
    split; channel_bounds.
Qed.

Lemma gradient_fill_between_stops_witness :
  exists r g b a,
    gradient_fill (N := Q) 3 2 = Return [r; g; b; a]
    /\ 14 <= r <= 243 /\ 114 <= g <= 165 /\ 182 <= b <= 234
    /\ 25 <= a <= 35.
Proof. apply (gradient_fill_between_stops 3 2). lia. Defined.

(** *** The stops and the alpha ramp, at any width *)

Lemma Q_trunc_exact (q : Q) (a : Z) :
  0 <= a -> (q == inject_Z a)%Q -> Q_trunc q = a.
Proof.
  intros Ha E.
  rewrite Q_trunc_floor.
  - rewrite E. apply Qfloor_Z.
  - rewrite E. unfold Qle. cbn. lia.
Qed.

Lemma Q_trunc_mono (p q : Q) :
  (0 <= p)%Q -> (p <= q)%Q -> Q_trunc p <= Q_trunc q.
Proof.
  intros H0 Hle.
  rewrite !Q_trunc_floor by lra. apply Qfloor_resp_le, Hle.
Qed.

Ltac exact_channel :=
  apply Q_trunc_exact; [lia | change (inject_Z ?z) with (z # 1); lra].

(** X9.  At any width, in exact arithmetic, the first column has exactly
    the colour of the purple stop with alpha 35, and the middle column of
    an even width exactly the colour of the cyan stop with alpha 25. *)
Theorem gradient_hits_the_first_two_stops (w : Z) :
  0 < w ->
  gradient_fill (N := Q) w 0 = Return [102; 126; 234; 35]
  /\ gradient_fill (N := Q) (2 * w) w = Return [14; 165; 233; 25].
Proof.
  intros Hw.
  assert (~ inject_Z w == 0)%Q as Hw0 by (unfold Qeq; cbn; lia).
  assert (inject_Z 0 / inject_Z w == 0)%Q as E0 by (field; exact Hw0).
  assert (inject_Z w / inject_Z (2 * w) == 1 # 2)%Q as E1.
  { rewrite inject_Z_mult. change (inject_Z 2) with 2%Q. field. exact Hw0. }
  unfold gradient_fill, gradient_alpha.
  cbn [to_int ndiv nadd nsub nmul nabs nlt of_int of_lit Q_PyNum].
  change (inject_Z (14 - 102)) with (-88 # 1).
  change (inject_Z (165 - 126)) with (39 # 1).
  change (inject_Z (233 - 234)) with (-1 # 1).
  change (inject_Z (244 - 14)) with (230 # 1).
  change (inject_Z (114 - 165)) with (-51 # 1).
  change (inject_Z (182 - 233)) with (-51 # 1).
  change (inject_Z 2) with (2 # 1). change (inject_Z 10) with (10 # 1).
  split.
  - revert E0. generalize (inject_Z 0 / inject_Z w)%Q. intros r E0.
    assert (Qabs (r - 0.5) == 1 # 2)%Q as Ea.
    { rewrite Qabs_neg by lra. lra. }
    revert Ea. generalize (Qabs (r - 0.5)). intros u Ea.
    destruct (Qle_bool 0.5 r) eqn:Hh;
      [apply Qle_bool_iff in Hh; exfalso; lra|].
    cbn [negb mbind mret Outcome_bind Outcome_ret].
    do 2 f_equal; [exact_channel|]. f_equal; [exact_channel|].
    f_equal; [exact_channel|]. f_equal. exact_channel.
  - revert E1. generalize (inject_Z w / inject_Z (2 * w))%Q. intros r E1.
    assert (Qabs (r - 0.5) == 0)%Q as Ea.
    { rewrite Qabs_pos by lra. lra. }
    revert Ea. generalize (Qabs (r - 0.5)). intros u Ea.
    destruct (Qle_bool 0.5 r) eqn:Hh.
    + cbn [negb mbind mret Outcome_bind Outcome_ret].
      do 2 f_equal; [exact_channel|]. f_equal; [exact_channel|].
      f_equal; [exact_channel|]. f_equal. exact_channel.
    + exfalso. assert (0.5 <= r)%Q as Hc by lra.
      apply Qle_bool_iff in Hc. congruence.
Qed.

Lemma gradient_hits_the_first_two_stops_witness :
  gradient_fill (N := Q) 600 0 = Return [102; 126; 234; 35]
  /\ gradient_fill (N := Q) (2 * 600) 600 = Return [14; 165; 233; 25].
Proof. apply (gradient_hits_the_first_two_stops 600). lia. Defined.

(** The distance of column [i] from the middle, as the loop computes
    it. *)
Lemma ratio_distance (w i : Z) :
  0 < w ->
  (Qabs (inject_Z i / inject_Z w - 0.5)
   == inject_Z (Z.abs (2 * i - w)) / inject_Z (2 * w))%Q.
Proof.
  intros Hw.
  assert (~ inject_Z w == 0)%Q as Hw0 by (unfold Qeq; cbn; lia).
  assert (~ inject_Z (2 * w) == 0)%Q as Hw2 by (unfold Qeq; cbn; lia).
  assert (inject_Z i / inject_Z w - 0.5
          == inject_Z (2 * i - w) / inject_Z (2 * w))%Q as E.
  { unfold Zminus. rewrite inject_Z_plus, inject_Z_opp, !inject_Z_mult.
    change (inject_Z 2) with 2%Q. field. exact Hw0. }
  rewrite E.
  assert (0 < inject_Z (2 * w))%Q as Hp by (unfold Qlt; cbn; lia).
  destruct (Z.le_gt_cases 0 (2 * i - w)) as [Hs | Hs].
  - rewrite Z.abs_eq by exact Hs. apply Qabs_pos.
    apply Qle_shift_div_l; [exact Hp|]. rewrite Qmult_0_l.
    unfold Qle; cbn; lia.
  - rewrite Z.abs_neq by lia. rewrite Qabs_neg.
    + rewrite inject_Z_opp. field. exact Hw2.
    + apply Qle_shift_div_r; [exact Hp|]. rewrite Qmult_0_l.
      unfold Qle; cbn; lia.
Qed.

(** X10.  The alpha of the overlay never decreases with the distance
    from the middle column: at any width, in exact arithmetic, a column
    at least as far from the middle as another has an alpha at least as
    large, and no alpha is below 25.  The overlay is most transparent at
    the centre and grows more opaque toward both edges. *)
Theorem gradient_alpha_grows_from_the_center (w i j : Z) :
  0 < w ->
  Z.abs (2 * i - w) <= Z.abs (2 * j - w) ->
  exists a b,
    gradient_alpha (N := Q) w i = Return a
    /\ gradient_alpha (N := Q) w j = Return b
    /\ 25 <= a <= b.
Proof.
  intros Hw Hd. unfold gradient_alpha.
  cbn [to_int ndiv nadd nsub nmul nabs of_int of_lit Q_PyNum].
  do 2 eexists. split; [reflexivity|]. split; [reflexivity|].
  pose proof (ratio_distance w i Hw) as Ei.
  pose proof (ratio_distance w j Hw) as Ej.
  assert (0 < inject_Z (2 * w))%Q as Hp by (unfold Qlt; cbn; lia).
  assert (inject_Z (Z.abs (2 * i - w)) / inject_Z (2 * w)
          <= inject_Z (Z.abs (2 * j - w)) / inject_Z (2 * w))%Q as Hle.
  { apply Qmult_le_compat_r; [rewrite <- Zle_Qle; exact Hd|].
    apply Qinv_le_0_compat, Qlt_le_weak, Hp. }
  rewrite <- Ei, <- Ej in Hle.
  pose proof (Qabs_nonneg (inject_Z i / inject_Z w - 0.5)) as Hi0.
  revert Hle Hi0.
  generalize (Qabs (inject_Z i / inject_Z w - 0.5))
             (Qabs (inject_Z j / inject_Z w - 0.5)).
  intros u v Hle Hu.
  change (inject_Z 25) with (25 # 1). change (inject_Z 10) with (10 # 1).
  change (inject_Z 2) with (2 # 1).
  split.
  - replace 25 with (Q_trunc (25 # 1)) at 1 by reflexivity.
    apply Q_trunc_mono; lra.
  - apply Q_trunc_mono; lra.
Qed.

Lemma gradient_alpha_grows_from_the_center_witness :
  exists a b,
    gradient_alpha (N := Q) 1200 600 = Return a
    /\ gradient_alpha (N := Q) 1200 0 = Return b
    /\ 25 <= a <= b.
Proof. apply (gradient_alpha_grows_from_the_center 1200 600 0); lia. Defined.

(** ** The run of [generate_banner], path by path *)

Lemma background_objects_eq :
  background_objects
  = [icons_layer; gradient_layer;
     AlphaComposite (New RGBA (width, height) [15; 23; 42; 255]) gradient_layer].
Proof. vm_compute. reflexivity. Qed.

(** Lines 66-114 do not look at the files: what follows them starts from
    the same three objects in every run. *)
Lemma generate_banner_after_background (fs : FileSystem) (seed : Z) :
  generate_banner (initial_world fs seed)
  = (place_logo 2%nat 0%nat;; draw_texts 2%nat;; save_banner 2%nat)
      {| files := fs;
         heap := [icons_layer; gradient_layer;
                  AlphaComposite (New RGBA (width, height) [15; 23; 42; 255])
                                 gradient_layer];
         stdout := []; written := []; random_state := seed |}.
Proof.
  rewrite <- background_objects_eq.
  unfold generate_banner. unfold mbind at 1, Py_bind at 1, bind at 1.
  assert (paint_background (initial_world fs seed)
          = (Return (2%nat, 0%nat),
             set_heap background_objects (initial_world fs seed))) as ->
      by (vm_compute; reflexivity).
  reflexivity.
Qed.

Lemma icons_layer_calls : calls_on icons_layer = placed_icon_calls.
Proof. vm_compute. reflexivity. Qed.


Lemma gradient_layer_plain (path : string) :
  uses_file path gradient_layer = false
  /\ drawn_with is_stroke gradient_layer = false.
Proof. vm_compute. split; reflexivity. Qed.

Lemma gradient_layer_no_text (s : string) : shows_text s gradient_layer = false.
Proof. vm_compute. reflexivity. Qed.

Ltac py_open H :=
  unfold generate_banner, place_logo, draw_texts, load_fonts, save_banner,
    Image_new, Image_open, Image_convert, Image_resize, Image_copy,
    Image_filter_GaussianBlur, Image_alpha_composite, Image_paste, ImageDraw_Draw,
    draw_call, ImageFont_truetype, ImageFont_load_default, Image_save,
    write_file, py_truediv, py_int, print, alloc, deref, assign, lift,
    try_except, mbind, Py_bind, bind, mret, Py_ret, ret, raise,
    initial_world, set_heap, set_stdout, set_written in H.

(** One step of evaluation, the binary64 operations and the comparisons
    of integers left as they stand. *)
Ltac py_step H :=
  cbn -[B64.div B64.mul B64.of_Z B64.to_int B64.is_finite of_int ndiv nmul
        to_int Z.ltb Z.eqb Z.div] in H;
  try change (340 <? 1) with false in H;
  cbn -[B64.div B64.mul B64.of_Z B64.to_int B64.is_finite of_int ndiv nmul
        to_int Z.ltb Z.eqb Z.div] in H.

(** A case for the test on which the evaluation waits. *)
Ltac py_case H :=
  match type of H with
  | context [match ?x with _ => _ end] =>
      lazymatch type of x with
      | bool => idtac
      | option string => idtac
      | LogoFile => idtac
      | Outcome Z => idtac
      end;
      lazymatch x with
      | context [match _ with _ => _ end] => fail
      | true => fail
      | false => fail
      | Some _ => fail
      | None => fail
      | Return _ => fail
      | Raise _ => fail
      | _ => destruct x eqn:?
      end
  end.

(** The run on the files [fs] as an equation [Hrun], the two layers of
    the background held as variables. *)
Ltac run_banner fs seed :=
  cbv zeta;
  generalize (generate_banner_after_background fs seed);
  generalize (generate_banner (initial_world fs seed));
  generalize icons_layer gradient_layer;
  let a := fresh "a" in let b := fresh "b" in
  intros a b run Hrun;
  destruct fs as [logo bold sans wr];
  py_open Hrun; py_step Hrun.

(** Every path of the run: a case for each test that the files decide;
    then the statement is read on the world that the path ends in. *)
Ltac run_cases Hrun :=
  repeat (py_case Hrun; py_step Hrun);
  rewrite Hrun; clear Hrun;
  cbn -[B64.div B64.mul B64.of_Z B64.to_int B64.is_finite of_int ndiv nmul
        to_int Z.ltb Z.eqb Z.div].

(** X11.  In every run the gradient layer receives one line per column,
    in the order of the columns: the line of column [i] runs from
    [(i, 0)] to [(i, height)] with the fill that the loop body computes
    for [i] and the default width.  The layer was created transparent,
    and the canvas of the banner is built on its composite over the
    plain background. *)
Theorem gradient_layer_complete (fs : FileSystem) (seed : Z) :
  let run := generate_banner (initial_world fs seed) in
  let overlay := heap (snd run) !!! 1%nat in
  map (fun c => (call_points c, Return (call_color c), call_width c))
      (calls_on overlay)
  = map (fun i => ([(of_int i, of_int 0); (of_int i, of_int height)],
                   gradient_fill width i, 0))
        (range width)
  /\ base_of overlay = New RGBA (width, height) [0; 0; 0; 0]
  /\ base_of (heap (snd run) !!! 2%nat)
     = AlphaComposite (New RGBA (width, height) [15; 23; 42; 255]) overlay.
Proof.
  cbv zeta.
  assert (map (fun c => (call_points c, Return (call_color c), call_width c))
              (calls_on gradient_layer)
          = map (fun i => ([(of_int i, of_int 0); (of_int i, of_int height)],
                           gradient_fill width i, 0))
                (range width)) as Hc by (vm_compute; reflexivity).
  assert (base_of gradient_layer = New RGBA (width, height) [0; 0; 0; 0]) as Hb
      by (vm_compute; reflexivity).
  revert Hc Hb. generalize (range width). intros columns.
  run_banner fs seed. run_cases Hrun. all: intros Hc Hb.
  all: repeat split; solve [exact Hc | exact Hb | reflexivity].
Qed.

Ltac not_a_report_line :=
  let H := fresh in
  intros H; cbn in H;
  repeat match type of H with
         | _ \/ _ => destruct H as [H | H]
         end;
  solve [discriminate H | contradiction].

(** X12.  A save that fails is not caught and is not reported as done.
    When [web/static] cannot be written to, the run ends with the
    exception of [img_rgb.save], nothing is written and no line of the
    report is printed.  A run that returns has written the file
    [web/static/banner.jpg] and nothing else, and a line of the report is
    only ever printed after that file was written. *)
Theorem failed_save_is_not_reported (fs : FileSystem) (seed : Z) :
  let run := generate_banner (initial_world fs seed) in
  (static_writable fs = false ->
   (exists e, fst run = Raise e)
   /\ written (snd run) = []
   /\ Forall (fun l => ~ In l report) (stdout (snd run)))
  /\ (fst run = Return tt -> map fst (written (snd run)) = [output_path])
  /\ (forall l, In l report -> In l (stdout (snd run)) ->
      map fst (written (snd run)) = [output_path]).
Proof.
  run_banner fs seed. run_cases Hrun.
  all: split;
       [ intros Hw;
         first [ discriminate Hw
               | split; [eexists; reflexivity|]; split; [reflexivity|];
                 repeat constructor; not_a_report_line ] |].
  all: split; [intros Hr; first [discriminate Hr | reflexivity]|].
  all: intros l Hl Hs; try reflexivity.
  all: exfalso; cbn in Hs;
       repeat match type of Hs with
              | _ \/ _ => destruct Hs as [Hs | Hs]
              end; try contradiction; subst l; revert Hl; not_a_report_line.
Qed.

(** X13.  The logo is placed whole or not at all, and the warning says
    which.  Either the logo file reaches the canvas, through four pastes,
    and no warning is printed; or nothing is pasted and the first line
    printed is the warning. *)
Theorem logo_placed_or_warned (fs : FileSystem) (seed : Z) :
  let run := generate_banner (initial_world fs seed) in
  let canvas := heap (snd run) !!! 2%nat in
  if uses_file logo_path canvas
  then length (pastes_on canvas) = 4%nat
       /\ existsb is_warning (stdout (snd run)) = false
  else pastes_on canvas = []
       /\ exists msg,
            head (stdout (snd run))
            = Some ("Warning: Could not load logo: " ++ msg)%string.
Proof.
  pose proof (gradient_layer_plain logo_path) as [Hb _]. revert Hb.
  run_banner fs seed. run_cases Hrun. all: intros Hb; rewrite ?Hb.
  all: first [ split; reflexivity
             | split; [reflexivity | eexists; reflexivity] ].
Qed.

(** X14.  A logo that decodes, wider and higher than 0 and of no more
    pixels than Pillow opens without a word (89478485), whose width
    [int(340 * (logo.width / logo.height))] at the height 340 is at least
    1 and at most 1160, so that it fits the canvas to the right of
    [logo_x = 40]: it is resized to that width and the height 340 with
    LANCZOS, its blurred copy is pasted three times and the logo once,
    each through its own alpha, at [(40, 145)] (145 is
    [(630 - 340) // 2]: the logo is centred vertically), no warning is
    printed, and the written image holds the logo. *)
Theorem logo_is_placed (fs : FileSystem) (seed : Z) (p : Picture) (lw : Z) :
  logo_png fs = logo_decodes p ->
  0 < pic_width p -> 0 < pic_height p ->
  pic_width p * pic_height p <= 89478485 ->
  let aspect := (of_int (pic_width p) / of_int (pic_height p))%py in
  B64.is_finite aspect = true ->
  to_int (of_int 340 * aspect)%py = Return lw ->
  1 <= lw <= 1160 ->
  let run := generate_banner (initial_world fs seed) in
  let logo := Resize (lw, 340) "LANCZOS" (Convert RGBA (Opened logo_path p)) in
  let glow := GaussianBlur 30 logo in
  pastes_on (heap (snd run) !!! 2%nat)
  = [(glow, (40, 145), glow); (glow, (40, 145), glow);
     (glow, (40, 145), glow); (logo, (40, 145), logo)]
  /\ image_size logo = (lw, 340)
  /\ existsb is_warning (stdout (snd run)) = false
  /\ Forall (fun '(_, f) => uses_file logo_path (saved_image f) = true)
            (written (snd run)).
Proof.
  intros Hp Hpw Hh _. cbv zeta. intros Hfin Hlw [H1 _].
  revert Hp. run_banner fs seed. intros Hp. cbn in Hp. subst logo.
  py_step Hrun.
  assert (pic_height p <> 0) as Hh0 by lia.
  apply Z.eqb_neq in Hh0. rewrite Hh0 in Hrun. py_step Hrun.
  rewrite Hfin in Hrun. py_step Hrun. rewrite Hlw in Hrun. py_step Hrun.
  apply Z.ltb_ge in H1. rewrite H1 in Hrun. py_step Hrun.
  run_cases Hrun.
  all: repeat split; try reflexivity.
  all: repeat constructor.
  all: cbn; rewrite ?orb_true_r; reflexivity.
Qed.

Lemma logo_is_placed_witness :
  let run := generate_banner (initial_world (files_with_logo wide_logo) 0) in
  let logo := Resize (475, 340) "LANCZOS"
                     (Convert RGBA (Opened logo_path wide_logo)) in
  let glow := GaussianBlur 30 logo in
  pastes_on (heap (snd run) !!! 2%nat)
  = [(glow, (40, 145), glow); (glow, (40, 145), glow);
     (glow, (40, 145), glow); (logo, (40, 145), logo)]
  /\ image_size logo = (475, 340)
  /\ existsb is_warning (stdout (snd run)) = false
  /\ Forall (fun '(_, f) => uses_file logo_path (saved_image f) = true)
            (written (snd run)).
Proof.
  apply (logo_is_placed (files_with_logo wide_logo) 0 wide_logo 475).
  - reflexivity.
  - reflexivity.
  - reflexivity.
  - vm_compute. discriminate.
  - vm_compute. reflexivity.
  - vm_compute. reflexivity.
  - lia.
Defined.



(** X16.  The three lines of text are drawn on the canvas in every run,
    at [(480, 230)], [(480, 315)] and [(480, 375)], and nothing else is
    drawn on it.  Their fonts are all or nothing: DejaVu Bold at 60 and
    DejaVu Sans at 30 and 21 when both font files load, and the built-in
    font for all three as soon as one of the files does not (the name
    loses its bold font when only DejaVu Sans is missing). *)
Theorem text_fonts_all_or_nothing (fs : FileSystem) (seed : Z) :
  let run := generate_banner (initial_world fs seed) in
  let '(font_name, font_title, font_subtitle) :=
    match DejaVuSans_Bold_ttf fs, DejaVuSans_ttf fs with
    | Some bold, Some sans =>
        (truetype_font bold_path bold 60, truetype_font sans_path sans 30,
         truetype_font sans_path sans 21)
    | _, _ => (default_font, default_font, default_font)
    end in
  calls_on (heap (snd run) !!! 2%nat)
  = [text (of_int 480, of_int 230) "Josh Wentworth" font_name
          [255; 255; 255; 255];
     text (of_int 480, of_int 315) "Multidisciplinary Engineer" font_title
          [148; 163; 184; 255];
     text (of_int 480, of_int 375) "Software × Hardware × Fabrication"
          font_subtitle [14; 165; 233; 255]].
Proof.
  run_banner fs seed. run_cases Hrun.
  all: reflexivity.
Qed.

(** X17.  The icons never reach the file.  The loop of lines 113-114
    makes 47 calls, each an outline or a line of one pixel or more; in
    every run they are the first 47 calls on the first image, the one
    that [alpha_composite] replaced; the canvas and the written image
    hold no outline and no line of positive width at all. *)
Theorem icons_never_reach_the_file (fs : FileSystem) (seed : Z) :
  let run := generate_banner (initial_world fs seed) in
  length placed_icon_calls = 47%nat
  /\ forallb is_stroke placed_icon_calls = true
  /\ firstn 47 (calls_on (heap (snd run) !!! 0%nat)) = placed_icon_calls
  /\ drawn_with is_stroke (heap (snd run) !!! 2%nat) = false
  /\ Forall (fun '(_, f) => drawn_with is_stroke (saved_image f) = false)
            (written (snd run)).
Proof.
  cbv zeta.
  split; [vm_compute; reflexivity|]. split; [vm_compute; reflexivity|].
  pose proof icons_layer_calls as Ha.
  assert (length (calls_on icons_layer) = 47%nat) as Hn
      by (rewrite Ha; vm_compute; reflexivity).
  pose proof (gradient_layer_plain "") as [_ Hb].
  revert Ha Hn Hb. generalize placed_icon_calls. intros icons.
  run_banner fs seed. run_cases Hrun. all: intros Ha Hn Hb.
  all: repeat split.
  all: rewrite ?firstn_app, ?Hn, ?Nat.sub_diag, ?firstn_all2 by lia.
  all: rewrite ?firstn_O, ?app_nil_r, ?Hb; try exact Ha.
  all: repeat constructor; cbn; rewrite ?Hb; reflexivity.
Qed.

(** X18.  Whatever the files are, the canvas shows the three lines of
    text and never the mark 'JW', and what is written is the canvas
    pasted through its own alpha onto a new RGB image in the background
    colour. *)
Theorem banner_shows_the_text_never_the_mark (fs : FileSystem) (seed : Z) :
  let run := generate_banner (initial_world fs seed) in
  let canvas := heap (snd run) !!! 2%nat in
  map (fun s => shows_text s canvas)
      ["Josh Wentworth"; "Multidisciplinary Engineer";
       "Software × Hardware × Fabrication"; "JW"]
  = [true; true; true; false]
  /\ Forall (fun '(_, f) =>
               saved_image f
               = Pasted (New RGB (width, height) [15; 23; 42]) canvas (0, 0)
                        canvas)
            (written (snd run)).
Proof.
  pose proof (gradient_layer_no_text "Josh Wentworth") as H1.
  pose proof (gradient_layer_no_text "Multidisciplinary Engineer") as H2.
  pose proof (gradient_layer_no_text "Software × Hardware × Fabrication") as H3.
  pose proof (gradient_layer_no_text "JW") as H4.
  revert H1 H2 H3 H4.
  run_banner fs seed. run_cases Hrun. all: intros H1 H2 H3 H4.
  all: rewrite ?H1, ?H2, ?H3, ?H4.
  all: split; [reflexivity | repeat constructor].
Qed.

(** ** The first renderer *)

(** X19.  [V1.generate_banner]: the image handed to [save] is 1200 by
    630 and of mode RGB in every run, whatever the fonts.  When
    [web/static] can be written to, that image is the one file written
    (JPEG, quality 95, optimized); when it cannot, the exception of
    [save] leaves the function, nothing is written and nothing is
    printed.  A run that returns has printed the two lines of the
    report. *)
Theorem v1_banner_written_iff_writable (fs : FileSystem) :
  let run := V1.generate_banner (V1.initial_world fs) in
  let img := V1.heap (snd run) !!! 8%nat in
  V1.image_size img = (1200, 630)
  /\ V1.image_mode img = RGB
  /\ (static_writable fs = true ->
      V1.written (snd run)
      = [("web/static/banner.jpg",
          {| V1.saved_image := img; V1.saved_format := "JPEG";
             V1.saved_quality := 95; V1.saved_optimize := true |})])
  /\ (static_writable fs = false ->
      (exists e, fst run = Raise e)
      /\ V1.written (snd run) = []
      /\ V1.stdout (snd run) = [])
  /\ (fst run = Return tt ->
      V1.stdout (snd run)
      = ["✓ Generated banner: web/static/banner.jpg"; "  Size: 1200x630"]).
Proof.
  destruct fs as [logo [bold|] [sans|] [|]]; vm_compute.
  all: repeat split; try discriminate; eexists; reflexivity.
Qed.

(** X20.  [V1.generate_banner]: every draw call reaches the image that
    is saved, the three bands lowest, then the mark 'JW' and the three
    lines of text, then the two accents.  The four fonts are all or
    nothing: DejaVu when both files load, the built-in font for the mark
    and the three lines as soon as one does not. *)
Theorem v1_every_call_reaches_the_image (fs : FileSystem) :
  let run := V1.generate_banner (V1.initial_world fs) in
  let '(font_name, font_title, font_subtitle, font_logo) :=
    match DejaVuSans_Bold_ttf fs, DejaVuSans_ttf fs with
    | Some bold, Some sans =>
        (truetype_font bold_path bold 72, truetype_font sans_path sans 36,
         truetype_font sans_path sans 24, truetype_font bold_path bold 160)
    | _, _ => (default_font, default_font, default_font, default_font)
    end in
  V1.layers (V1.heap (snd run) !!! 8%nat)
  = [V1.rectangle ((0, 0), (400, 630)) (V1.color_tuple [102; 126; 234; 25]);
     V1.rectangle ((400, 0), (800, 630)) (V1.color_tuple [14; 165; 233; 38]);
     V1.rectangle ((800, 0), (1200, 630)) (V1.color_tuple [244; 114; 182; 25]);
     V1.text (160, 240) "JW" font_logo (V1.color_string "#0ea5e9");
     V1.text (450, 240) "Josh Wentworth" font_name (V1.color_string "#ffffff");
     V1.text (450, 340) "Multidisciplinary Engineer" font_title
             (V1.color_string "#94a3b8");
     V1.text (450, 400) "Software × Hardware × Fabrication" font_subtitle
             (V1.color_string "#0ea5e9");
     V1.ellipse ((1040, 470), (1160, 590)) (V1.color_tuple [102; 126; 234; 13]);
     V1.ellipse ((60, 40), (140, 120)) (V1.color_tuple [14; 165; 233; 13])].
Proof.
  destruct fs as [logo [bold|] [sans|] [|]]; vm_compute; reflexivity.
Qed.
